(** * ESG report quality analyzer: scoring and batch filtering

    A shallow embedding of [ESGPanelAnalyzer] and of the loop of [main]
    (esg_panel_analyzer.py), together with the properties of the scorer,
    of the file-name parser and of the batch driver.  [ESGQualityAnalyzer]
    (esg_quality_analyzer.py) has the same three checks, word for word,
    over the same vocabulary less the last standards keyword.

    Python values are modelled as follows.
    - A [str] is the list of its Unicode code points (type [N]).
    - An [int] is a [Z].
    - [None] is the [None] of [option]; a raised exception is [Raised].
    - The dict returned by [analyze_report] is a [gmap string Z].
    - The three Unicode facilities of the Python runtime that the program
      calls ([str.lower], the decimal-digit table behind [\d] and [int],
      the white-space table behind [\s]) are the fields of the class
      [Unicode]; the program is embedded over an arbitrary instance. *)

From Stdlib Require Import NArith ZArith List Ascii String Bool Lia.
From stdpp Require Import base option list sorting gmap strings.

Abbreviation cp := N (only parsing).
Abbreviation str := (list N) (only parsing).

(** ** String literals

    [u "..."] is the Python string whose UTF-8 source text stands between
    the quotes: the bytes are decoded into code points. *)

Module Utf8.

Fixpoint decode (bs : list N) : str :=
  match bs with
  | [] => []
  | b0 :: r0 =>
    if (b0 <? 128)%N then b0 :: decode r0
    else
      match r0 with
      | [] => []
      | b1 :: r1 =>
        if (b0 <? 224)%N then ((b0 - 192) * 64 + (b1 - 128))%N :: decode r1
        else
          match r1 with
          | [] => []
          | b2 :: r2 =>
            if (b0 <? 240)%N
            then ((b0 - 224) * 4096 + (b1 - 128) * 64 + (b2 - 128))%N :: decode r2
            else
              match r2 with
              | [] => []
              | b3 :: r3 =>
                ((b0 - 240) * 262144 + (b1 - 128) * 4096
                 + (b2 - 128) * 64 + (b3 - 128))%N :: decode r3
              end
          end
      end
  end.

Definition bytes (s : string) : list N :=
  map N_of_ascii (list_ascii_of_string s).

End Utf8.

Definition u (s : string) : str := Utf8.decode (Utf8.bytes s).

Definition LF : cp := 10%N.

(** ** The Unicode facilities of the runtime *)

Class Unicode := {
  (** [s.lower()] *)
  str_lower : str -> str;
  (** the value of a character of category Nd, [None] for any other
      character: the table behind [\d] and [int] *)
  decimal_value : cp -> option N;
  (** the characters [\s] matches in a [str] pattern *)
  is_space : cp -> bool
}.

(** The part of the tables that is fixed by ASCII.  An instance that agrees
    with it is [Unicode_ascii]; the runtime's real tables agree with it
    too on the characters it speaks about. *)

Definition ascii_lower (c : cp) : cp :=
  if ((65 <=? c) && (c <=? 90))%N then (c + 32)%N else c.

Definition ascii_decimal (c : cp) : option N :=
  if ((48 <=? c) && (c <=? 57))%N then Some (c - 48)%N else None.

Definition ascii_space (c : cp) : bool :=
  (((9 <=? c) && (c <=? 13)) || ((28 <=? c) && (c <=? 32)))%N.

Definition Unicode_ascii : Unicode :=
  {| str_lower := map ascii_lower;
     decimal_value := ascii_decimal;
     is_space := ascii_space |}.

(** A character is plain when it is ASCII or a CJK unified ideograph
    (U+4E00..U+9FFF): the whole vocabulary of the analyzer is plain. *)
Definition plain (c : cp) : bool :=
  ((c <? 128) || ((19968 <=? c) && (c <=? 40959)))%N.

(** ** [in] on strings *)

Fixpoint starts_with (k t : str) : bool :=
  match k, t with
  | [], _ => true
  | _ :: _, [] => false
  | a :: k', b :: t' => (a =? b)%N && starts_with k' t'
  end.

(** [str_in k t] is [k in t]. *)
Fixpoint str_in (k t : str) : bool :=
  starts_with k t ||
  match t with
  | [] => false
  | _ :: t' => str_in k t'
  end.

(** [k] occurs in [t] as a contiguous run of characters. *)
Definition substring_of (k t : str) : Prop :=
  exists a b, t = a ++ k ++ b.

(** ** Regular expressions

    The fragment of the syntax of [re] that the analyzer's patterns are
    written in, and a backtracking matcher for it.  Alternatives are tried
    in the order [re] tries them: the left branch of [|] first, a greedy
    repetition from the longest run down, a lazy one from the shortest up.
    Repetition applies to a single character class, which is how every
    quantifier of the program is used, except [(...)?]. *)

Module Re.

Inductive cset :=
  | Chr (c : cp)          (** a literal character *)
  | Digit                 (** [\d] *)
  | Space                 (** [\s] *)
  | Dot                   (** [.], without [re.DOTALL] *)
  | OneOf (cs : list cp)  (** [[...]] *).

Inductive greed := Greedy | Lazy.

Inductive regex :=
  | Eps                                                  (** the empty pattern *)
  | One (cs : cset)
  | Cat (r1 r2 : regex)
  | Alt (r1 r2 : regex)                                  (** [r1|r2] *)
  | Opt (r : regex)                                      (** [r?] *)
  | Rep (g : greed) (lo : nat) (hi : option nat) (cs : cset)
      (** [cs{lo,hi}]; [*] is [Rep Greedy 0 None], [+] is [Rep Greedy 1 None],
          [*?] is [Rep Lazy 0 None], [{n}] is [Rep Greedy n (Some n)] *)
  | Group (i : nat) (r : regex)                          (** the [i]-th [( )] *)
  | Bol                                                  (** [^] under [re.MULTILINE] *).

(** A run of literal characters. *)
Fixpoint Lit (s : str) : regex :=
  match s with
  | [] => Eps
  | c :: s' => Cat (One (Chr c)) (Lit s')
  end.

(** The state of a match attempt: the character just before the current
    position ([None] at the start of the text), the text still ahead, and
    the groups captured so far. *)
Record mstate := MState {
  prev : option cp;
  rest : str;
  groups : gmap nat (list N)
}.

Definition orelse {A} (x y : option A) : option A :=
  match x with
  | Some a => Some a
  | None => y
  end.

(** Where [^] matches under [re.MULTILINE]: at the start of the text and
    right after a line feed. *)
Definition line_start (p : option cp) : bool :=
  match p with
  | None => true
  | Some c => (c =? LF)%N
  end.

(** Group [i] spans the characters consumed between [st] and [st']. *)
Definition capture (i : nat) (st st' : mstate) : mstate :=
  MState (prev st') (rest st')
    (<[i := take (length (rest st) - length (rest st')) (rest st)]> (groups st')).

Section Matcher.
Context `{Unicode}.

Definition mem (cs : cset) (c : cp) : bool :=
  match cs with
  | Chr a => (c =? a)%N
  | Digit => bool_decide (is_Some (decimal_value c))
  | Space => is_space c
  | Dot => negb (c =? LF)%N
  | OneOf l => bool_decide (c ∈ l)
  end.

Definition hi_pred (hi : option nat) : option nat :=
  match hi with
  | Some h => Some (Nat.pred h)
  | None => None
  end.

Definition hi_room (hi : option nat) : bool :=
  match hi with
  | Some 0 => false
  | _ => true
  end.

(** [cs{lo,hi}] from position [(p, s)], then the continuation [k]. *)
Fixpoint rep {A} (g : greed) (cs : cset) (lo : nat) (hi : option nat)
    (gs : gmap nat (list N)) (p : option cp) (s : str)
    (k : mstate -> option A) {struct s} : option A :=
  let stop :=
    match lo with
    | 0 => k (MState p s gs)
    | S _ => None
    end in
  let more :=
    match s with
    | c :: s' =>
      if hi_room hi && mem cs c
      then rep g cs (Nat.pred lo) (hi_pred hi) gs (Some c) s' k
      else None
    | [] => None
    end in
  match g with
  | Greedy => orelse more stop
  | Lazy => orelse stop more
  end.

Fixpoint run {A} (r : regex) (st : mstate) (k : mstate -> option A) : option A :=
  match r with
  | Eps => k st
  | One cs =>
    match rest st with
    | c :: s' => if mem cs c then k (MState (Some c) s' (groups st)) else None
    | [] => None
    end
  | Cat r1 r2 => run r1 st (fun st' => run r2 st' k)
  | Alt r1 r2 => orelse (run r1 st k) (run r2 st k)
  | Opt r1 => orelse (run r1 st k) (k st)
  | Rep g lo hi cs => rep g cs lo hi (groups st) (prev st) (rest st) k
  | Group i r1 => run r1 st (fun st' => k (capture i st st'))
  | Bol => if line_start (prev st) then k st else None
  end.

(** [re.match(r, text)]: the match that starts at position 0, if any. *)
Definition re_match (r : regex) (text : str) : option mstate :=
  run r (MState None text ∅) Some.

(** The start positions from [(p, s)] on, left to right. *)
Fixpoint search_from (r : regex) (p : option cp) (s : str) : option mstate :=
  orelse (run r (MState p s ∅) Some)
    match s with
    | [] => None
    | c :: s' => search_from r (Some c) s'
    end.

(** [re.search(r, text)]: the match at the leftmost start position that
    has one. *)
Definition re_search (r : regex) (text : str) : option mstate :=
  search_from r None text.

End Matcher.

(** [if re.search(...)]: a match object is true, [None] is false. *)
Definition truthy {A} (m : option A) : bool :=
  match m with
  | Some _ => true
  | None => false
  end.

End Re.

(** ** Exceptions, [int] and files *)

Inductive exn :=
  | ValueError (message : str)
  | TypeError (message : str)
  | KeyError (key : string).

Inductive outcome (A : Type) :=
  | Returned (a : A)
  | Raised (e : exn).
Arguments Returned {A} a.
Arguments Raised {A} e.

#[global] Instance outcome_bind : MBind outcome := fun A B f x =>
  match x with
  | Returned a => f a
  | Raised e => Raised e
  end.

(** [str(e)]; the quoting of [repr] is kept, its escaping is not. *)
Definition exn_str (e : exn) : str :=
  match e with
  | ValueError message => message
  | TypeError message => message
  | KeyError key => u "'" ++ u key ++ u "'"
  end.

(** [d[key]] on a dict with [str] keys. *)
Definition getitem {V} (d : gmap string V) (key : string) : outcome V :=
  match d !! key with
  | Some v => Returned v
  | None => Raised (KeyError key)
  end.

(** What [open(path, 'r', encoding='utf-8')] followed by [read()] gives for
    each path: the decoded text, or [None] when either call raises. *)
Definition disk := list N -> option (list N).

Section Runtime.
Context `{Unicode}.

(** The base-10 value of a run of decimal digits, most significant first. *)
Fixpoint digits_value (acc : Z) (s : str) : option Z :=
  match s with
  | [] => Some acc
  | c :: s' =>
    match decimal_value c with
    | Some v => digits_value (10 * acc + Z.of_N v) s'
    | None => None
    end
  end.

(** [int(x)] for the arguments the analyzer can pass: [None], on which
    [int] raises [TypeError], or a string; a non-empty run of decimal
    digits has its value, and every other string is taken to raise
    [ValueError] (signs, blanks and underscores are not modelled). *)
Definition py_int (x : option str) : outcome Z :=
  match x with
  | None =>
    Raised (TypeError (u "int() argument must be a string, a bytes-like object or a real number, not 'NoneType'"))
  | Some s =>
    match s, digits_value 0 s with
    | _ :: _, Some n => Returned n
    | _, _ =>
      Raised (ValueError (u "invalid literal for int() with base 10: '" ++ s ++ u "'"))
    end
  end.

End Runtime.

(** ** The analyzer *)

Section Analyzer.
Context `{Unicode}.

Definition standards_keywords : list str :=
  [ u "GRI"; u "Global Reporting Initiative";
    u "SASB"; u "Sustainability Accounting Standards Board";
    u "TCFD"; u "Task Force on Climate-Related Financial Disclosures";
    u "ISSB"; u "International Sustainability Standards Board";
    u "CSRD"; u "Corporate Sustainability Reporting Directive";
    u "SDGs"; u "Sustainable Development Goals";
    u "全球报告倡议"; u "可持续发展会计准则"; u "气候相关财务披露";
    u "国际可持续发展准则"; u "欧盟企业可持续发展报告指令";
    u "上市公司社会责任指引" ].

Definition assurance_keywords : list str :=
  [ u "第三方鉴证"; u "独立验证"; u "外部审计"; u "独立保证"; u "独立鉴证报告";
    u "第三方鉴证"; u "独立核验"; u "外部鉴证"; u "外部核验"; u "assured by";
    u "verified by"; u "独立审计师报告"; u "assurance";
    u "third-party verification"; u "independent audit" ].

Definition quantitative_units : list str :=
  [ u "吨"; u "%"; u "千瓦时"; u "立方米"; u "小时"; u "人次"; u "元" ].

Definition kpi_keywords : list str :=
  [ u "关键绩效指标"; u "环境绩效数据"; u "社会绩效数据"; u "可持续发展表现";
    u "ESG 数据"; u "绩效指标一览"; u "核心指标"; u "KPI" ].

(** [for keyword in keywords: if keyword.lower() in text: return 1],
    then [return 0]; [text] is the lower-cased text. *)
Fixpoint any_keyword (keywords : list str) (text : str) : Z :=
  match keywords with
  | [] => 0
  | keyword :: more =>
    if str_in (str_lower keyword) text then 1 else any_keyword more text
  end.

Definition check_standards_compliance (text : str) : Z :=
  let text := str_lower text in
  any_keyword standards_keywords text.

Definition check_third_party_assurance (text : str) : Z :=
  let text := str_lower text in
  any_keyword assurance_keywords text.

(** [r'\d+(\.\d+)?\s*' + unit]; no unit holds a character that is special
    in a pattern, so [unit] stands for itself. *)
Definition number_unit_pattern (unit : str) : Re.regex :=
  Re.Cat (Re.Rep Re.Greedy 1 None Re.Digit)
    (Re.Cat (Re.Opt (Re.Group 1
               (Re.Cat (Re.One (Re.Chr 46)) (Re.Rep Re.Greedy 1 None Re.Digit))))
       (Re.Cat (Re.Rep Re.Greedy 0 None Re.Space) (Re.Lit unit))).

(** [r'^' + keyword + r'|[\n]' + keyword], compiled with [re.MULTILINE];
    no KPI phrase holds a special character either. *)
Definition kpi_pattern (keyword : str) : Re.regex :=
  Re.Alt (Re.Cat Re.Bol (Re.Lit keyword))
    (Re.Cat (Re.One (Re.OneOf [LF])) (Re.Lit keyword)).

(** [for x in xs: if re.search(pattern(x), text): return 1] falling through
    to [otherwise]. *)
Fixpoint any_pattern (pattern : str -> Re.regex) (xs : list str) (text : str)
    (otherwise : Z) : Z :=
  match xs with
  | [] => otherwise
  | x :: more =>
    if Re.truthy (Re.re_search (pattern x) text) then 1
    else any_pattern pattern more text otherwise
  end.

Definition check_quantitative_metrics (text : str) : Z :=
  any_pattern number_unit_pattern quantitative_units text
    (any_pattern kpi_pattern kpi_keywords text 0).

(** [logging.error] is not modelled. *)
Definition extract_text_from_txt (d : disk) (txt_path : str) : str :=
  match d txt_path with
  | Some text => text
  | None => []
  end.

Definition analyze_report (d : disk) (txt_path : str) : option (gmap string Z) :=
  let text := extract_text_from_txt d txt_path in
  match text with
  | [] => None
  | _ :: _ =>
    let standards_score := check_standards_compliance text in
    let assurance_score := check_third_party_assurance text in
    let metrics_score := check_quantitative_metrics text in
    let total_score := (standards_score + assurance_score + metrics_score)%Z in
    Some {[ "standards_score" := standards_score;
            "assurance_score" := assurance_score;
            "metrics_score" := metrics_score;
            "total_score" := total_score ]}
  end.

(** [r'(\d{6})-(\d{4})-(.*?)\.txt'] *)
Definition filename_pattern : Re.regex :=
  Re.Cat (Re.Group 1 (Re.Rep Re.Greedy 6 (Some 6) Re.Digit))
    (Re.Cat (Re.One (Re.Chr 45))
       (Re.Cat (Re.Group 2 (Re.Rep Re.Greedy 4 (Some 4) Re.Digit))
          (Re.Cat (Re.One (Re.Chr 45))
             (Re.Cat (Re.Group 3 (Re.Rep Re.Lazy 0 None Re.Dot))
                (Re.Cat (Re.One (Re.Chr 46)) (Re.Lit (u "txt"))))))).

(** [match.group(i)]: [None] for a group that took no part in the match. *)
Definition group (m : Re.mstate) (i : nat) : option str := Re.groups m !! i.

Definition parse_filename (filename : str)
    : outcome (option str * option Z * option str) :=
  match Re.re_match filename_pattern filename with
  | Some m =>
    let stock_code := group m 1 in
    year ← py_int (group m 2);
    let company_name := group m 3 in
    Returned (stock_code, Some year, company_name)
  | None => Returned (None, None, None)
  end.

(** ** The batch driver

    The loop of [main] over [txt_files].  A file is named by
    [txt_file.name]; all files lie in the one directory [reports_dir], so
    the name also stands for the path handed to [analyze_report].  Logging,
    the progress bar, and the sorting and writing of the two tables after
    the loop are not modelled. *)

Record result_row := ResultRow {
  stock_code : option (list N);
  company_name : option (list N);
  year : option Z;
  standards_score : Z;
  assurance_score : Z;
  metrics_score : Z;
  total_score : Z
}.

Record failed_file := FailedFile {
  file : list N;
  reason : list N
}.

Record tables := Tables {
  results : list result_row;
  failed_files : list failed_file
}.

Definition analysis_failed : str := u "分析失败".
Definition year_out_of_range : str := u "年份不在2015-2023范围内".
Definition processing_error (e : exn) : str := u "处理出错: " ++ exn_str e.

(** [year and 2015 <= year <= 2023] *)
Definition year_in_range (year : option Z) : bool :=
  match year with
  | None => false
  | Some y => negb (y =? 0)%Z && ((2015 <=? y)%Z && (y <=? 2023)%Z)
  end.

(** The body of the [try]. *)
Definition process_file (d : disk) (acc : tables) (txt_file : str) : outcome tables :=
  parsed ← parse_filename txt_file;
  let '(stock_code, year, company_name) := parsed in
  if year_in_range year then
    let scores := analyze_report d txt_file in
    match scores with
    | Some scores =>
      standards_score ← getitem scores "standards_score";
      assurance_score ← getitem scores "assurance_score";
      metrics_score ← getitem scores "metrics_score";
      total_score ← getitem scores "total_score";
      Returned
        (Tables
           (results acc ++
              [ResultRow stock_code company_name year
                 standards_score assurance_score metrics_score total_score])
           (failed_files acc))
    | None =>
      Returned
        (Tables (results acc)
           (failed_files acc ++ [FailedFile txt_file analysis_failed]))
    end
  else
    Returned
      (Tables (results acc)
         (failed_files acc ++ [FailedFile txt_file year_out_of_range])).

(** One turn of the loop: the [try] and its [except Exception]. *)
Definition main_step (d : disk) (acc : tables) (txt_file : str) : tables :=
  match process_file d acc txt_file with
  | Returned acc' => acc'
  | Raised e =>
    Tables (results acc)
      (failed_files acc ++ [FailedFile txt_file (processing_error e)])
  end.

Definition main_loop (d : disk) (txt_files : list str) : tables :=
  fold_left (main_step d) txt_files (Tables [] []).

End Analyzer.

(** ** After the loop: the tables that are written

    [df.sort_values(['stock_code', 'year'])] orders the rows by stock code
    and, among equal codes, by year; a missing value sorts last.  The two
    [if] guards write a table only when it has a row.  What [to_csv] does
    with the rows is not modelled. *)

(** [a <= b] on [str]: by code point, a proper prefix first. *)
Fixpoint str_le (a b : str) : bool :=
  match a, b with
  | [], _ => true
  | _ :: _, [] => false
  | x :: a', y :: b' =>
    if (x <? y)%N then true
    else if (x =? y)%N then str_le a' b'
    else false
  end.

(** The order of one sort key, missing values last. *)
Definition key_le {A} (le : A -> A -> bool) (x y : option A) : bool :=
  match x, y with
  | _, None => true
  | None, Some _ => false
  | Some a, Some b => le a b
  end.

Definition row_le (r1 r2 : result_row) : bool :=
  if decide (stock_code r1 = stock_code r2)
  then key_le Z.leb (year r1) (year r2)
  else key_le str_le (stock_code r1) (stock_code r2).

Definition sort_values (rows : list result_row) : list result_row :=
  merge_sort (fun r1 r2 => row_le r1 r2) rows.

(** [if results: ... df.to_csv(output_file, ...)]: the rows of the panel
    file, in the order written, or [None] when no file is written. *)
Definition written_results (t : tables) : option (list result_row) :=
  match results t with
  | [] => None
  | _ :: _ => Some (sort_values (results t))
  end.

(** [if failed_files: ... failed_df.to_csv(failed_file, ...)] *)
Definition written_failures (t : tables) : option (list failed_file) :=
  match failed_files t with
  | [] => None
  | _ :: _ => Some (failed_files t)
  end.

(** ** The PDF analyzer

    [ESGQualityAnalyzer] of esg_quality_analyzer.py.  Its three checks
    read word for word as those of the panel analyzer, over its own
    vocabulary; the text comes from the pages of a PDF file. *)

Module Quality.

(** What PyPDF2 gives for a path: [None] when [open] or [PdfReader]
    raises, else the pages in order, each with the text [extract_text()]
    returns or [None] when that call raises. *)
Definition pdf_disk := list N -> option (list (option (list N))).

Section Analyzer.
Context `{Unicode}.

Definition standards_keywords : list str :=
  [ u "GRI"; u "Global Reporting Initiative";
    u "SASB"; u "Sustainability Accounting Standards Board";
    u "TCFD"; u "Task Force on Climate-Related Financial Disclosures";
    u "ISSB"; u "International Sustainability Standards Board";
    u "CSRD"; u "Corporate Sustainability Reporting Directive";
    u "SDGs"; u "Sustainable Development Goals";
    u "全球报告倡议"; u "可持续发展会计准则"; u "气候相关财务披露";
    u "国际可持续发展准则"; u "欧盟企业可持续发展报告指令" ].

Definition assurance_keywords : list str :=
  [ u "第三方鉴证"; u "独立验证"; u "外部审计"; u "独立保证"; u "独立鉴证报告";
    u "第三方鉴证"; u "独立核验"; u "外部鉴证"; u "外部核验"; u "assured by";
    u "verified by"; u "独立审计师报告"; u "assurance";
    u "third-party verification"; u "independent audit" ].

Definition quantitative_units : list str :=
  [ u "吨"; u "%"; u "千瓦时"; u "立方米"; u "小时"; u "人次"; u "元" ].

Definition kpi_keywords : list str :=
  [ u "关键绩效指标"; u "环境绩效数据"; u "社会绩效数据"; u "可持续发展表现";
    u "ESG 数据"; u "绩效指标一览"; u "核心指标"; u "KPI" ].

(** The [for page in pdf_reader.pages: text += page.extract_text()] loop;
    [None] when a page raises. *)
Fixpoint read_pages (text : str) (pages : list (option str)) : option str :=
  match pages with
  | [] => Some text
  | Some page :: more => read_pages (text ++ page) more
  | None :: _ => None
  end.

(** The [print] of the error is not modelled. *)
Definition extract_text_from_pdf (d : pdf_disk) (pdf_path : str) : str :=
  match d pdf_path with
  | Some pages =>
    match read_pages [] pages with
    | Some text => text
    | None => []
    end
  | None => []
  end.

Definition check_standards_compliance (text : str) : Z :=
  let text := str_lower text in
  any_keyword standards_keywords text.

Definition check_third_party_assurance (text : str) : Z :=
  let text := str_lower text in
  any_keyword assurance_keywords text.

Definition check_quantitative_metrics (text : str) : Z :=
  any_pattern number_unit_pattern quantitative_units text
    (any_pattern kpi_pattern kpi_keywords text 0).

Definition analyze_report (d : pdf_disk) (pdf_path : str) : option (gmap string Z) :=
  let text := extract_text_from_pdf d pdf_path in
  match text with
  | [] => None
  | _ :: _ =>
    let standards_score := check_standards_compliance text in
    let assurance_score := check_third_party_assurance text in
    let metrics_score := check_quantitative_metrics text in
    let total_score := (standards_score + assurance_score + metrics_score)%Z in
    Some {[ "standards_compliance" := standards_score;
            "third_party_assurance" := assurance_score;
            "quantitative_metrics" := metrics_score;
            "total_score" := total_score ]}
  end.

End Analyzer.
End Quality.

(** * Vocabulary of the statements *)

(** ** Laws of the runtime tables

    What the proofs use of [str.lower], when they use anything: on plain
    characters it is the ASCII mapping, applied character by character
    whatever surrounds them; and text added at the end leaves every plain
    run of the lower-cased text in place (the one context-sensitive rule of
    [str.lower], the final sigma, rewrites no plain character). *)

Definition plain_str (s : str) : bool := forallb plain s.

Class LowerLaws `{Unicode} : Prop := {
  lower_plain : forall s, plain_str s = true -> str_lower s = map ascii_lower s;
  lower_within : forall a k b, plain_str k = true ->
    substring_of (map ascii_lower k) (str_lower (a ++ k ++ b));
  lower_append : forall t m k, plain_str k = true ->
    substring_of k (str_lower t) -> substring_of k (str_lower (t ++ m))
}.

(** The decimal digits of ASCII are decimal digits, with their values. *)
Class DigitLaws `{Unicode} : Prop :=
  decimal_ascii : forall c, (48 <= c <= 57)%N -> decimal_value c = Some (c - 48)%N.

(** ** The language of a pattern

    [lang r p w]: the pattern [r] can consume exactly [w] when [p] is the
    character before [w] ([None] at the start of the text). *)

Module Lang.
Import Re.

Fixpoint last_of (p : option cp) (w : str) : option cp :=
  match w with
  | [] => p
  | c :: w' => last_of (Some c) w'
  end.

Definition within (hi : option nat) (n : nat) : Prop :=
  match hi with
  | Some h => n <= h
  | None => True
  end.

Section Denotation.
Context `{Unicode}.

Definition all_in (cs : cset) (w : str) : bool := forallb (mem cs) w.

Fixpoint lang (r : regex) (p : option cp) (w : str) : Prop :=
  match r with
  | Eps => w = []
  | One cs => exists c, w = [c] /\ mem cs c = true
  | Cat r1 r2 =>
    exists w1 w2, w = w1 ++ w2 /\ lang r1 p w1 /\ lang r2 (last_of p w1) w2
  | Alt r1 r2 => lang r1 p w \/ lang r2 p w
  | Opt r1 => lang r1 p w \/ w = []
  | Rep _ lo hi cs => all_in cs w = true /\ lo <= length w /\ within hi (length w)
  | Group _ r1 => lang r1 p w
  | Bol => w = [] /\ line_start p = true
  end.

End Denotation.
End Lang.

(** A decimal digit has a value from 0 to 9. *)
Class DigitRange `{Unicode} : Prop :=
  decimal_below_ten : forall c v, decimal_value c = Some v -> (v <= 9)%N.

Section Vocabulary.
Context `{Unicode}.
Import Re Lang.

(** ** Matches of the metrics check *)

(** A non-empty run of characters that [\d] matches. *)
Definition digit_run (s : str) : Prop := s <> [] /\ all_in Digit s = true.

(** A number with a unit: digits, then nothing or a point and digits,
    then white space (possibly none), then the unit. *)
Definition number_unit (unit w : str) : Prop :=
  exists ds frac sp,
    w = ds ++ frac ++ sp ++ unit /\ digit_run ds /\
    (frac = [] \/ exists fs, frac = 46%N :: fs /\ digit_run fs) /\
    all_in Space sp = true.

Definition number_unit_occurs (unit text : str) : Prop :=
  exists a w b, text = a ++ w ++ b /\ number_unit unit w.

(** The phrase stands at the very start of the text or right after a line
    feed. *)
Definition heading_occurs (keyword text : str) : Prop :=
  (exists b, text = keyword ++ b) \/
  (exists a b, text = a ++ LF :: keyword ++ b).

(** Some unit or some KPI phrase matches the text. *)
Definition metrics_match (text : str) : Prop :=
  (exists unit, unit ∈ quantitative_units /\ number_unit_occurs unit text) \/
  (exists keyword, keyword ∈ kpi_keywords /\ heading_occurs keyword text).

(** The text holds no unit at all, and no KPI phrase at a line start:
    tests that do not consult the tables. *)
Definition no_unit_in (text : str) : bool :=
  forallb (fun unit => negb (str_in unit text)) quantitative_units.

Definition no_heading_in (text : str) : bool :=
  forallb (fun keyword =>
    negb (starts_with keyword text || str_in (LF :: keyword) text)) kpi_keywords.

(** The characters with a special meaning in a pattern. *)
Definition special (c : cp) : bool :=
  bool_decide (c ∈ u ".^$*+?{}[]\|()").

(** A keyword, in any mix of upper and lower case. *)
Definition keyword_variant (keywords : list str) (m : str) : Prop :=
  plain_str m = true /\
  exists k, k ∈ keywords /\ map ascii_lower m = map ascii_lower k.

(** ** Shapes of file names *)

Definition dash : cp := 45%N.
Definition dot_txt : str := u ".txt".

(** [n] characters that [\d] matches. *)
Definition digits (n : nat) (s : str) : Prop :=
  length s = n /\ all_in Digit s = true.

(** No line feed: what [.] can run over. *)
Definition one_line (s : str) : Prop := all_in Dot s = true.

(** [name] is the shortest span that is followed by [".txt"]. *)
Definition shortest_name (name tail : str) : Prop :=
  forall n1 b, name ++ dot_txt ++ tail = n1 ++ dot_txt ++ b ->
    length name <= length n1.

(** The file name begins [<6 digits>-<4 digits>-<name>.txt]. *)
Definition prefix_shape (filename : str) : Prop :=
  exists code yr name tail,
    filename = code ++ dash :: yr ++ dash :: name ++ dot_txt ++ tail /\
    digits 6 code /\ digits 4 yr /\ one_line name.

(** The whole file name has the shape, with nothing after [".txt"]. *)
Definition fixed_shape (filename : str) : Prop :=
  exists code yr name,
    filename = code ++ dash :: yr ++ dash :: name ++ dot_txt /\
    digits 6 code /\ digits 4 yr.

(** [".txt"] starts at no position inside [name]. *)
Definition no_early_txt (name tail : str) : bool :=
  forallb (fun i => negb (starts_with dot_txt (drop i (name ++ dot_txt ++ tail))))
    (seq 0 (length name)).

Definition ascii_digits (s : str) : bool :=
  forallb (fun c => (48 <=? c)%N && (c <=? 57)%N) s.

(** ** Outcomes of the driver *)

(** The dict [analyze_report] builds from the three checks on [text]. *)
Definition scores_of (text : str) : gmap string Z :=
  {[ "standards_score" := check_standards_compliance text;
     "assurance_score" := check_third_party_assurance text;
     "metrics_score" := check_quantitative_metrics text;
     "total_score" :=
       (check_standards_compliance text + check_third_party_assurance text
        + check_quantitative_metrics text)%Z ]}.

(** The file is scored: [analyze_report] is called, and either its scores
    make a new row or its [None] is recorded as a failed analysis. *)
Definition scored (d : disk) (acc : tables) (txt_file : str)
    (code : option str) (year : option Z) (name : option str) : tables :=
  match extract_text_from_txt d txt_file with
  | [] =>
    Tables (results acc)
      (failed_files acc ++ [FailedFile txt_file analysis_failed])
  | c :: text =>
    Tables
      (results acc ++
         [ResultRow code name year
            (check_standards_compliance (c :: text))
            (check_third_party_assurance (c :: text))
            (check_quantitative_metrics (c :: text))
            (check_standards_compliance (c :: text)
             + check_third_party_assurance (c :: text)
             + check_quantitative_metrics (c :: text))])
      (failed_files acc)
  end.

(** The file is filtered out: nothing is scored, and the file is recorded
    with the year-out-of-range reason. *)
Definition filtered_out (acc : tables) (txt_file : str) : tables :=
  Tables (results acc)
    (failed_files acc ++ [FailedFile txt_file year_out_of_range]).

(** The file is on record as filtered out. *)
Definition filtered (t : tables) (txt_file : str) : Prop :=
  FailedFile txt_file year_out_of_range ∈ failed_files t.

(** Rows only ever hold a year of the range. *)
Definition rows_in_range (t : tables) : Prop :=
  forall row, row ∈ results t ->
    exists y, year row = Some y /\ (2015 <= y <= 2023)%Z.

(** ** More of the same vocabulary *)

(** One character that [\d] matches, then white space (possibly none),
    then the unit. *)
Definition digit_then_unit (unit text : str) : Prop :=
  exists a c sp b,
    text = a ++ c :: sp ++ unit ++ b /\
    mem Digit c = true /\ all_in Space sp = true.

(** The pattern [\d\s*] followed by the unit. *)
Definition digit_unit_pattern (unit : str) : regex :=
  Cat (One Digit) (Cat (Rep Greedy 0 None Space) (Lit unit)).

(** The pattern [^] followed by the phrase, under [re.MULTILINE]. *)
Definition line_start_pattern (keyword : str) : regex := Cat Bol (Lit keyword).

(** What one file adds to the tables: a row, or a failure record. *)
Definition record_of (d : disk) (txt_file : str) : result_row + failed_file :=
  match parse_filename txt_file with
  | Returned (code, year, name) =>
    if year_in_range year then
      match extract_text_from_txt d txt_file with
      | [] => inr (FailedFile txt_file analysis_failed)
      | c :: text =>
        inl (ResultRow code name year
               (check_standards_compliance (c :: text))
               (check_third_party_assurance (c :: text))
               (check_quantitative_metrics (c :: text))
               (check_standards_compliance (c :: text)
                + check_third_party_assurance (c :: text)
                + check_quantitative_metrics (c :: text)))
      end
    else inr (FailedFile txt_file year_out_of_range)
  | Raised e => inr (FailedFile txt_file (processing_error e))
  end.

Definition row_of (d : disk) (txt_file : str) : option result_row :=
  match record_of d txt_file with
  | inl row => Some row
  | inr _ => None
  end.

Definition failure_of (d : disk) (txt_file : str) : option failed_file :=
  match record_of d txt_file with
  | inl _ => None
  | inr failure => Some failure
  end.

End Vocabulary.

(** * Lemmas *)

(** ** Literals *)

Example u_unit : u "吨" = [21544%N].
Proof. reflexivity. Qed.

Example u_mixed : u "ESG 数据" = [69; 83; 71; 32; 25968; 25454]%N.
Proof. reflexivity. Qed.

(** The units and the KPI phrases stand for themselves in a pattern. *)
Example vocabulary_is_literal :
  forallb (forallb (fun c => negb (special c)))
    (quantitative_units ++ kpi_keywords) = true.
Proof. vm_compute. reflexivity. Qed.

(** ** The ASCII tables obey the laws *)

Lemma Unicode_ascii_lower : @LowerLaws Unicode_ascii.
Proof.
  split; cbn.
  - reflexivity.
  - intros a k b _. exists (map ascii_lower a), (map ascii_lower b).
    now rewrite !map_app.
  - intros t m k _ (a & b & E). exists a, (b ++ map ascii_lower m).
    rewrite map_app, E. now rewrite <- !app_assoc.
Qed.

Lemma Unicode_ascii_digits : @DigitLaws Unicode_ascii.
Proof.
  intros c [Hlo Hhi]. cbn. unfold ascii_decimal.
  apply N.leb_le in Hlo, Hhi. now rewrite Hlo, Hhi.
Qed.

(** ** Substrings *)

Lemma starts_with_spec k t : starts_with k t = true <-> exists b, t = k ++ b.
Proof.
  revert t. induction k as [|a k IH]; intros t; cbn.
  - split; [intros _; now exists t | reflexivity].
  - destruct t as [|b t].
    + split; [discriminate | intros (? & ?); discriminate].
    + rewrite andb_true_iff, N.eqb_eq, IH. split.
      * intros (-> & r & ->). now exists r.
      * intros (r & E). injection E as -> ->. split; [reflexivity | now exists r].
Qed.

Lemma str_in_spec k t : str_in k t = true <-> substring_of k t.
Proof.
  unfold substring_of. induction t as [|c t IH]; cbn.
  - rewrite orb_false_r, starts_with_spec. split.
    + intros (b & E). now exists [], b.
    + intros (a & b & E). destruct a; [now exists b | discriminate].
  - rewrite orb_true_iff, starts_with_spec, IH. split.
    + intros [(b & E) | (a & b & E)].
      * now exists [], b.
      * exists (c :: a), b. now rewrite E.
    + intros (a & b & E). destruct a as [|x a].
      * left. now exists b.
      * right. injection E as _ E. now exists a, b.
Qed.

(** ** The keyword checks *)

Section KeywordChecks.
Context `{Unicode}.

Lemma any_keyword_one keywords text :
  any_keyword keywords text = 1%Z <->
  exists keyword, keyword ∈ keywords /\ substring_of (str_lower keyword) text.
Proof.
  induction keywords as [|k ks IH]; cbn.
  - split; [discriminate | intros (k & Hk & _); inversion Hk].
  - destruct (str_in (str_lower k) text) eqn:E.
    + split; [intros _ | reflexivity].
      exists k. split; [left | now apply str_in_spec].
    + rewrite IH. split.
      * intros (k' & Hk' & Hs). exists k'. split; [now right | exact Hs].
      * intros (k' & Hk' & Hs). apply elem_of_cons in Hk' as [-> | Hk'].
        -- apply str_in_spec in Hs. congruence.
        -- now exists k'.
Qed.

Lemma any_keyword_range keywords text :
  any_keyword keywords text = 0%Z \/ any_keyword keywords text = 1%Z.
Proof.
  induction keywords as [|k ks IH]; cbn; [now left|].
  destruct (str_in (str_lower k) text); [now right | exact IH].
Qed.

Lemma any_keyword_zero keywords text :
  any_keyword keywords text = 0%Z <->
  ~ exists keyword, keyword ∈ keywords /\ substring_of (str_lower keyword) text.
Proof.
  rewrite <- any_keyword_one.
  destruct (any_keyword_range keywords text) as [E | E]; rewrite E.
  - split; [intros _; discriminate | reflexivity].
  - split; [discriminate | intros HF; now destruct HF].
Qed.

End KeywordChecks.

(** ** The matcher against the language

    The matcher succeeds exactly when some split of the text ahead is in
    the language of the pattern and the continuation accepts what is
    left. *)

Module ReFacts.
Import Re Lang.

Lemma last_of_app p a b : last_of p (a ++ b) = last_of (last_of p a) b.
Proof. revert p. induction a as [|c a IH]; intros p; cbn; [reflexivity | apply IH]. Qed.

Lemma last_of_snoc p a c : last_of p (a ++ [c]) = Some c.
Proof. now rewrite last_of_app. Qed.

Lemma last_of_start a : last_of None a = None -> a = [].
Proof.
  destruct a as [|x a _] using rev_ind; [reflexivity|].
  rewrite last_of_snoc. discriminate.
Qed.

Lemma last_of_after a c : last_of None a = Some c -> exists a', a = a' ++ [c].
Proof.
  destruct a as [|x a _] using rev_ind; [discriminate|].
  rewrite last_of_snoc. intros [= ->]. now exists a.
Qed.

Lemma orelse_Some {A} (x y : option A) a :
  orelse x y = Some a -> x = Some a \/ y = Some a.
Proof. destruct x; cbn; auto. Qed.

Lemma orelse_l {A} (x y : option A) : is_Some x -> is_Some (orelse x y).
Proof. intros [a ->]. cbn. eauto. Qed.

Lemma orelse_r {A} (x y : option A) : is_Some y -> is_Some (orelse x y).
Proof. destruct x; cbn; eauto. Qed.

Lemma truthy_is_Some {A} (m : option A) : truthy m = true <-> is_Some m.
Proof.
  destruct m; cbn; split; eauto; try discriminate.
  intros [? [=]].
Qed.

Section Semantics.
Context `{Unicode}.

Lemma rep_eq {A} g cs lo hi gs p s (k : mstate -> option A) :
  rep g cs lo hi gs p s k =
  let stop := match lo with 0 => k (MState p s gs) | S _ => None end in
  let more :=
    match s with
    | c :: s' =>
      if hi_room hi && mem cs c
      then rep g cs (Nat.pred lo) (hi_pred hi) gs (Some c) s' k
      else None
    | [] => None
    end in
  match g with
  | Greedy => orelse more stop
  | Lazy => orelse stop more
  end.
Proof. destruct s; reflexivity. Qed.

Lemma rep_sound {A} g cs (k : mstate -> option A) a gs s :
  forall lo hi p,
  rep g cs lo hi gs p s k = Some a ->
  exists w t, s = w ++ t /\ all_in cs w = true /\ lo <= length w /\
    within hi (length w) /\ k (MState (last_of p w) t gs) = Some a.
Proof.
  induction s as [|c s IH]; intros lo hi p; rewrite rep_eq; cbv zeta; intros E.
  - assert (S0 : match lo with 0 => k (MState p [] gs) | S _ => None end = Some a).
    { destruct g; apply orelse_Some in E as [E | E]; congruence. }
    destruct lo; [|discriminate].
    exists [], []. repeat split; auto. destruct hi; cbn; lia.
  - assert (D : match lo with 0 => k (MState p (c :: s) gs) | S _ => None end = Some a \/
               (if hi_room hi && mem cs c
                then rep g cs (Nat.pred lo) (hi_pred hi) gs (Some c) s k
                else None) = Some a).
    { destruct g; apply orelse_Some in E as [E | E]; auto. }
    destruct D as [D | D].
    + destruct lo; [|discriminate].
      exists [], (c :: s). repeat split; auto. destruct hi; cbn; lia.
    + destruct (hi_room hi && mem cs c) eqn:G; [|discriminate].
      apply andb_true_iff in G as [G1 G2].
      apply IH in D as (w & t & -> & Hw & Hlo & Hhi & Hk).
      exists (c :: w), t. repeat split; auto.
      * cbn. rewrite G2. exact Hw.
      * cbn. lia.
      * destruct hi as [[|h]|]; cbn in *; try discriminate; auto; lia.
Qed.

Lemma rep_complete {A} g cs (k : mstate -> option A) gs t w :
  forall lo hi p,
  all_in cs w = true -> lo <= length w -> within hi (length w) ->
  is_Some (k (MState (last_of p w) t gs)) ->
  is_Some (rep g cs lo hi gs p (w ++ t) k).
Proof.
  induction w as [|c w IH]; intros lo hi p Hw Hlo Hhi Hk; rewrite rep_eq; cbv zeta.
  - cbn in Hlo, Hk |- *. assert (lo = 0) as -> by lia.
    destruct g; [apply orelse_r | apply orelse_l]; exact Hk.
  - cbn in Hw, Hlo, Hhi, Hk. apply andb_true_iff in Hw as [Hc Hw].
    assert (R : hi_room hi = true) by (destruct hi as [[|h]|]; cbn in *; auto; lia).
    assert (M : is_Some (rep g cs (Nat.pred lo) (hi_pred hi) gs (Some c) (w ++ t) k)).
    { apply IH; auto; [lia|]. destruct hi as [h|]; cbn in *; auto; lia. }
    cbn [app]. rewrite R, Hc. cbn [andb].
    destruct g; [apply orelse_l | apply orelse_r]; exact M.
Qed.

Lemma run_sound {A} r :
  forall st (k : mstate -> option A) a,
  run r st k = Some a ->
  exists w t gs, rest st = w ++ t /\ lang r (prev st) w /\
    k (MState (last_of (prev st) w) t gs) = Some a.
Proof.
  induction r as [|cs|r1 IH1 r2 IH2|r1 IH1 r2 IH2|r1 IH1|g lo hi cs|i r1 IH1|];
    intros [p s gs] k a E; cbn in E |- *.
  - exists [], s, gs. auto.
  - destruct s as [|c s]; [discriminate|].
    destruct (mem cs c) eqn:M; [|discriminate].
    exists [c], s, gs. repeat split; eauto.
  - apply IH1 in E as (w1 & t1 & gs1 & E1 & L1 & E).
    apply IH2 in E as (w2 & t2 & gs2 & E2 & L2 & E). cbn in *. subst.
    exists (w1 ++ w2), t2, gs2. rewrite last_of_app, <- app_assoc.
    repeat split; eauto.
  - apply orelse_Some in E as [E | E];
      [apply IH1 in E | apply IH2 in E];
      destruct E as (w & t & gs' & ? & ? & ?); exists w, t, gs'; auto.
  - apply orelse_Some in E as [E | E].
    + apply IH1 in E as (w & t & gs' & ? & ? & ?). exists w, t, gs'. auto.
    + exists [], s, gs. auto.
  - apply rep_sound in E as (w & t & -> & ? & ? & ? & ?).
    exists w, t, gs. auto.
  - apply IH1 in E as (w & t & gs' & ? & ? & E). cbn in E.
    exists w, t. eexists. repeat split; eauto.
  - destruct (line_start p) eqn:L; [|discriminate].
    exists [], s, gs. auto.
Qed.

Lemma run_complete {A} r :
  forall st w t (k : mstate -> option A),
  rest st = w ++ t -> lang r (prev st) w ->
  (forall gs, is_Some (k (MState (last_of (prev st) w) t gs))) ->
  is_Some (run r st k).
Proof.
  induction r as [|cs|r1 IH1 r2 IH2|r1 IH1 r2 IH2|r1 IH1|g lo hi cs|i r1 IH1|];
    intros [p s gs] w t k E L K; cbn in E, L, K |- *; subst s.
  - subst w. apply K.
  - destruct L as (c & -> & M). cbn. rewrite M. apply K.
  - destruct L as (w1 & w2 & -> & L1 & L2).
    apply (IH1 _ w1 (w2 ++ t)); cbn; [now rewrite app_assoc | exact L1 |].
    intros gs1. apply (IH2 _ w2 t); cbn; auto.
    intros gs2. rewrite <- last_of_app. apply K.
  - destruct L as [L | L]; [apply orelse_l, (IH1 _ w t) | apply orelse_r, (IH2 _ w t)];
      auto.
  - destruct L as [L | ->]; [apply orelse_l, (IH1 _ w t) | apply orelse_r, K]; auto.
  - destruct L as (Hw & Hlo & Hhi). apply rep_complete; auto.
  - apply (IH1 _ w t); cbn; auto. intros gs1. apply K.
  - destruct L as (-> & ->). apply K.
Qed.

(** [re.search] is true exactly when some part of the text is in the
    language of the pattern, read in its context. *)
Lemma search_from_spec r s :
  forall p,
  is_Some (search_from r p s) <->
  exists a w b, s = a ++ w ++ b /\ lang r (last_of p a) w.
Proof.
  induction s as [|c s IH]; intros p; cbn [search_from].
  - split.
    + intros E. destruct (run r (MState p [] ∅) Some) as [m|] eqn:R;
        [|destruct E as [? [=]]].
      apply run_sound in R as (w & t & gs & E1 & L & _). cbn in *.
      exists [], w, t. auto.
    + intros (a & w & b & E & L).
      destruct a; [|discriminate]. apply orelse_l.
      apply (run_complete _ _ w b); cbn; eauto.
  - split.
    + intros E. destruct (run r (MState p (c :: s) ∅) Some) as [m|] eqn:R.
      * apply run_sound in R as (w & t & gs & E1 & L & _). cbn in *.
        exists [], w, t. auto.
      * cbn in E. apply IH in E as (a & w & b & -> & L).
        exists (c :: a), w, b. auto.
    + intros (a & w & b & E & L). destruct a as [|x a].
      * apply orelse_l. apply (run_complete _ _ w b); cbn; eauto.
      * injection E as -> ->. apply orelse_r, IH. eauto.
Qed.

Lemma re_search_spec r text :
  truthy (re_search r text) = true <->
  exists a w b, text = a ++ w ++ b /\ lang r (last_of None a) w.
Proof. rewrite truthy_is_Some. apply search_from_spec. Qed.

Lemma lang_Lit s : forall p w, lang (Lit s) p w <-> w = s.
Proof.
  induction s as [|c s IH]; intros p w; cbn; [reflexivity|]. split.
  - intros (w1 & w2 & -> & (x & -> & M) & L). apply IH in L as ->.
    apply N.eqb_eq in M as ->. reflexivity.
  - intros ->. exists [c], s. repeat split; [|now apply IH].
    exists c. split; [reflexivity | apply N.eqb_refl].
Qed.

End Semantics.
End ReFacts.

(** ** The quantitative-metrics check *)

Section Metrics.
Context `{Unicode}.
Import Re Lang ReFacts.

Lemma digit_run_length s : (all_in Digit s = true /\ 1 <= length s) <-> digit_run s.
Proof.
  unfold digit_run. destruct s; cbn; split; intros [? ?]; split; auto; try lia;
    congruence.
Qed.

Lemma lang_number_unit unit p w :
  lang (number_unit_pattern unit) p w <-> number_unit unit w.
Proof.
  unfold number_unit_pattern, number_unit. cbn [lang]. split.
  - intros (ds & w1 & -> & (Dd & Dl & _) & frac & w2 & -> & F & sp & w3 & -> &
            (Sp & _ & _) & L).
    apply lang_Lit in L as ->.
    exists ds, frac, sp. repeat split; auto.
    + intros ->. cbn in Dl. lia.
    + destruct F as [(d & fs & -> & (c & -> & M) & (Fd & Fl & _)) | ->]; [right | now left].
      apply N.eqb_eq in M as ->. exists fs. split; [reflexivity|].
      now apply digit_run_length.
  - intros (ds & frac & sp & -> & Dd & F & Sp).
    apply digit_run_length in Dd as [Dd Dl].
    exists ds, (frac ++ sp ++ unit). repeat split; auto.
    exists frac, (sp ++ unit). repeat split; auto.
    + destruct F as [-> | (fs & -> & Fd)]; [now right | left].
      apply digit_run_length in Fd as [Fd Fl].
      exists [46%N], fs. repeat split; auto. exists 46%N. auto.
    + exists sp, unit. repeat split; auto; [lia|]. now apply lang_Lit.
Qed.

Lemma search_number_unit unit text :
  truthy (re_search (number_unit_pattern unit) text) = true <->
  number_unit_occurs unit text.
Proof.
  rewrite re_search_spec. unfold number_unit_occurs.
  split; intros (a & w & b & E & L); exists a, w, b; split; auto;
    now apply (lang_number_unit unit (last_of None a) w).
Qed.

Lemma lang_kpi keyword p w :
  lang (kpi_pattern keyword) p w <->
  (line_start p = true /\ w = keyword) \/ w = LF :: keyword.
Proof.
  unfold kpi_pattern. cbn [lang]. split.
  - intros [(w1 & w2 & -> & (-> & L) & K) | (w1 & w2 & -> & (c & -> & M) & K)];
      apply lang_Lit in K as ->.
    + now left.
    + right. cbn in M. apply bool_decide_eq_true in M.
      apply list_elem_of_singleton in M as ->. reflexivity.
  - intros [(L & ->) | ->].
    + left. exists [], keyword. repeat split; auto. now apply lang_Lit.
    + right. exists [LF], keyword. repeat split; [|now apply lang_Lit].
      exists LF. split; [reflexivity|]. cbn. apply bool_decide_eq_true.
      now apply list_elem_of_singleton.
Qed.

Lemma search_kpi keyword text :
  truthy (re_search (kpi_pattern keyword) text) = true <->
  heading_occurs keyword text.
Proof.
  rewrite re_search_spec. unfold heading_occurs. split.
  - intros (a & w & b & -> & L). apply lang_kpi in L as [(L & ->) | ->].
    + destruct (last_of None a) as [c|] eqn:E.
      * cbn in L. apply N.eqb_eq in L as ->.
        apply last_of_after in E as (a' & ->). right. exists a', b.
        now rewrite <- app_assoc.
      * apply last_of_start in E as ->. left. now exists b.
    + right. now exists a, b.
  - intros [(b & ->) | (a & b & ->)].
    + exists [], keyword, b. split; [reflexivity|]. apply lang_kpi. now left.
    + exists a, (LF :: keyword), b. split; [reflexivity|]. apply lang_kpi. now right.
Qed.

Lemma any_pattern_one pattern xs text otherwise :
  any_pattern pattern xs text otherwise = 1%Z <->
  (exists x, x ∈ xs /\ truthy (re_search (pattern x) text) = true) \/
  otherwise = 1%Z.
Proof.
  induction xs as [|x xs IH]; cbn.
  - split; [now right | intros [(x & Hx & _) | E]; [inversion Hx | exact E]].
  - destruct (truthy (re_search (pattern x) text)) eqn:E.
    + split; [intros _; left; exists x; split; [left | exact E] | reflexivity].
    + rewrite IH. split.
      * intros [(y & Hy & T) | O]; [left; exists y; split; [now right | exact T] | now right].
      * intros [(y & Hy & T) | O]; [|now right].
        apply elem_of_cons in Hy as [-> | Hy]; [congruence | left; now exists y].
Qed.

Lemma any_pattern_range pattern xs text otherwise :
  otherwise = 0%Z \/ otherwise = 1%Z ->
  any_pattern pattern xs text otherwise = 0%Z \/
  any_pattern pattern xs text otherwise = 1%Z.
Proof.
  intros O. induction xs as [|x xs IH]; cbn; [exact O|].
  destruct (truthy (re_search (pattern x) text)); [now right | exact IH].
Qed.

Lemma check_quantitative_metrics_range text :
  check_quantitative_metrics text = 0%Z \/ check_quantitative_metrics text = 1%Z.
Proof. apply any_pattern_range, any_pattern_range. now left. Qed.

Lemma check_quantitative_metrics_one text :
  check_quantitative_metrics text = 1%Z <-> metrics_match text.
Proof.
  unfold check_quantitative_metrics, metrics_match.
  rewrite !any_pattern_one. split.
  - intros [(x & Hx & T) | [(x & Hx & T) | [=]]].
    + left. exists x. split; [exact Hx | now apply search_number_unit].
    + right. exists x. split; [exact Hx | now apply search_kpi].
  - intros [(x & Hx & T) | (x & Hx & T)].
    + left. exists x. split; [exact Hx | now apply search_number_unit].
    + right. left. exists x. split; [exact Hx | now apply search_kpi].
Qed.

Lemma check_quantitative_metrics_zero text :
  check_quantitative_metrics text = 0%Z <-> ~ metrics_match text.
Proof.
  rewrite <- check_quantitative_metrics_one.
  destruct (check_quantitative_metrics_range text) as [E | E]; rewrite E.
  - split; [intros _; discriminate | reflexivity].
  - split; [discriminate | intros HF; now destruct HF].
Qed.

(** A number with a unit holds the unit; a heading either opens the text
    or follows a line feed.  Both can be tested without the tables. *)
Lemma number_unit_occurs_unit unit text :
  number_unit_occurs unit text -> str_in unit text = true.
Proof.
  intros (a & w & b & -> & ds & frac & sp & -> & _).
  apply str_in_spec. exists (a ++ ds ++ frac ++ sp), b.
  now rewrite <- !app_assoc.
Qed.

Lemma heading_occurs_test keyword text :
  heading_occurs keyword text <->
  starts_with keyword text || str_in (LF :: keyword) text = true.
Proof.
  unfold heading_occurs.
  rewrite orb_true_iff, starts_with_spec, str_in_spec. unfold substring_of.
  split; (intros [? | (a & b & ->)]; [now left | right; now exists a, b]).
Qed.

Lemma metrics_zero_test text :
  no_unit_in text = true -> no_heading_in text = true ->
  check_quantitative_metrics text = 0%Z.
Proof.
  unfold no_unit_in, no_heading_in. rewrite !forallb_forall.
  intros U K. apply check_quantitative_metrics_zero.
  intros [(x & Hx & O) | (x & Hx & O)].
  - apply number_unit_occurs_unit in O.
    apply list_elem_of_In, U in Hx. rewrite O in Hx. discriminate.
  - apply heading_occurs_test in O.
    apply list_elem_of_In, K in Hx. rewrite O in Hx. discriminate.
Qed.

End Metrics.

(** ** The file-name pattern *)

Module FilenameFacts.
Import Re Lang ReFacts.

Section Deterministic.
Context `{Unicode}.

Lemma orelse_None_r {A} (x : option A) : orelse x None = x.
Proof. now destruct x. Qed.

(** [cs{n}] consumes [n] characters of the class and nothing else. *)
Lemma rep_exact {A} cs gs (k : mstate -> option A) t w :
  forall p, all_in cs w = true ->
  rep Greedy cs (length w) (Some (length w)) gs p (w ++ t) k
  = k (MState (last_of p w) t gs).
Proof.
  induction w as [|c w IH]; intros p Hw; rewrite rep_eq; cbv zeta.
  - cbn. destruct t; reflexivity.
  - cbn in Hw. apply andb_true_iff in Hw as [Hc Hw].
    cbn. rewrite Hc. cbn. rewrite IH by exact Hw. apply orelse_None_r.
Qed.

(** [cs*?] stops at the first position where the continuation accepts. *)
Lemma rep_lazy_first {A} cs gs (k : mstate -> option A) t w :
  forall p, all_in cs w = true ->
  (forall n1 n2, w = n1 ++ n2 -> n2 <> [] ->
     k (MState (last_of p n1) (n2 ++ t) gs) = None) ->
  is_Some (k (MState (last_of p w) t gs)) ->
  rep Lazy cs 0 None gs p (w ++ t) k = k (MState (last_of p w) t gs).
Proof.
  induction w as [|c w IH]; intros p Hw Hno Hk; rewrite rep_eq; cbv zeta.
  - cbn in *. destruct Hk as [a ->]. reflexivity.
  - cbn in Hw. apply andb_true_iff in Hw as [Hc Hw].
    pose proof (Hno [] (c :: w) eq_refl ltac:(discriminate)) as E0.
    cbn in E0 |- *. rewrite E0, Hc. cbn. apply IH; auto.
    intros n1 n2 -> Hn. apply (Hno (c :: n1) n2); auto.
Qed.

Lemma run_Lit {A} s (k : mstate -> option A) gs t :
  forall p, run (Lit s) (MState p (s ++ t) gs) k = k (MState (last_of p s) t gs).
Proof.
  induction s as [|c s IH]; intros p; cbn; [reflexivity|].
  rewrite N.eqb_refl. apply IH.
Qed.

Lemma run_Lit_fail {A} s (k : mstate -> option A) gs :
  forall p r, starts_with s r = false -> run (Lit s) (MState p r gs) k = None.
Proof.
  induction s as [|c s IH]; intros p r E; cbn in *; [discriminate|].
  destruct r as [|x r]; [reflexivity|]. rewrite (N.eqb_sym x c).
  destruct (c =? x)%N; cbn in *; [now apply IH | reflexivity].
Qed.

Lemma take_consumed (w t : str) : take (length (w ++ t) - length t) (w ++ t) = w.
Proof.
  rewrite length_app. replace (length w + length t - length t) with (length w) by lia.
  now rewrite take_app_length.
Qed.

End Deterministic.

Section Shape.
Context `{Unicode}.

Lemma shortest_name_exists name tail :
  one_line name ->
  exists name' tail',
    name ++ dot_txt ++ tail = name' ++ dot_txt ++ tail' /\
    one_line name' /\ shortest_name name' tail'.
Proof.
  unfold one_line, shortest_name. induction name as [|c name IH]; intros L.
  - exists [], tail. repeat split; auto. intros; cbn; lia.
  - cbn in L. apply andb_true_iff in L as [Lc L].
    destruct (starts_with dot_txt ((c :: name) ++ dot_txt ++ tail)) eqn:S.
    + apply starts_with_spec in S as (b & S). exists [], b.
      repeat split; auto. intros; cbn; lia.
    + destruct (IH L) as (name' & tail' & E & L' & M).
      exists (c :: name'), tail'. repeat split.
      * cbn [app]. now rewrite E.
      * cbn. now rewrite Lc.
      * intros n1 b E1. destruct n1 as [|x n1].
        -- cbn [app] in E1. rewrite <- E in E1.
           assert (S' : starts_with dot_txt ((c :: name) ++ dot_txt ++ tail) = true)
             by (apply starts_with_spec; exists b; exact E1).
           congruence.
        -- injection E1 as _ E1. apply M in E1. cbn. lia.
Qed.

Lemma shortest_name_first name tail n1 n2 :
  shortest_name name tail -> name = n1 ++ n2 -> n2 <> [] ->
  starts_with dot_txt (n2 ++ dot_txt ++ tail) = false.
Proof.
  intros M -> Hn. destruct (starts_with _ _) eqn:S; [|reflexivity].
  apply starts_with_spec in S as (b & S).
  specialize (M n1 b). rewrite <- app_assoc, S in M. specialize (M eq_refl).
  rewrite length_app in M. destruct n2; [congruence | cbn in M; lia].
Qed.

Lemma digits_value_total s :
  forall acc, all_in Digit s = true -> is_Some (digits_value acc s).
Proof.
  induction s as [|c s IH]; intros acc D; cbn in *; [eauto|].
  apply andb_true_iff in D as [Dc D]. apply bool_decide_eq_true in Dc as [v ->].
  now apply IH.
Qed.

Lemma run_group_exact {A} i cs (k : mstate -> option A) gs t w p :
  all_in cs w = true ->
  run (Group i (Rep Greedy (length w) (Some (length w)) cs)) (MState p (w ++ t) gs) k
  = k (MState (last_of p w) t (<[i := w]> gs)).
Proof.
  intros Hw. cbn [run prev rest groups]. rewrite rep_exact by exact Hw.
  unfold capture; cbn [prev rest groups]. now rewrite take_consumed.
Qed.

Lemma run_group_lazy {A} i cs (k : mstate -> option A) gs t w p :
  all_in cs w = true ->
  (forall n1 n2 gs', w = n1 ++ n2 -> n2 <> [] ->
     k (MState (last_of p n1) (n2 ++ t) gs') = None) ->
  is_Some (k (MState (last_of p w) t (<[i := w]> gs))) ->
  run (Group i (Rep Lazy 0 None cs)) (MState p (w ++ t) gs) k
  = k (MState (last_of p w) t (<[i := w]> gs)).
Proof.
  intros Hw Hno Hk. cbn [run prev rest groups]. rewrite rep_lazy_first.
  - unfold capture; cbn [prev rest groups]. now rewrite take_consumed.
  - exact Hw.
  - intros n1 n2 E Hn. unfold capture; cbn [prev rest groups]. now apply Hno.
  - unfold capture; cbn [prev rest groups]. now rewrite take_consumed.
Qed.

Lemma run_chr {A} c (k : mstate -> option A) gs t p :
  run (One (Chr c)) (MState p (c :: t) gs) k = k (MState (Some c) t gs).
Proof. cbn. now rewrite N.eqb_refl. Qed.

Lemma run_Cat {A} r1 r2 st (k : mstate -> option A) :
  run (Cat r1 r2) st k = run r1 st (fun st' => run r2 st' k).
Proof. reflexivity. Qed.

(** The match on a name of the shape, with the shortest name. *)
Lemma re_match_shape code yr name tail :
  digits 6 code -> digits 4 yr -> one_line name -> shortest_name name tail ->
  exists p,
    re_match filename_pattern
      (code ++ dash :: yr ++ dash :: name ++ dot_txt ++ tail)
    = Some (MState p tail (<[3 := name]> (<[2 := yr]> (<[1 := code]> ∅)))).
Proof.
  intros [Lc Dc] [Ly Dy] Ln M. eexists.
  unfold re_match.
  change filename_pattern with
    (Cat (Group 1 (Rep Greedy 6 (Some 6) Digit))
       (Cat (One (Chr dash))
          (Cat (Group 2 (Rep Greedy 4 (Some 4) Digit))
             (Cat (One (Chr dash))
                (Cat (Group 3 (Rep Lazy 0 None Dot)) (Lit dot_txt)))))).
  rewrite <- Lc, <- Ly.
  rewrite run_Cat, run_group_exact by exact Dc.
  rewrite run_Cat, run_chr.
  rewrite run_Cat, run_group_exact by exact Dy.
  rewrite run_Cat, run_chr.
  rewrite run_Cat, run_group_lazy.
  - rewrite run_Lit. reflexivity.
  - exact Ln.
  - intros n1 n2 gs' -> Hn. apply run_Lit_fail.
    now apply (shortest_name_first (n1 ++ n2) tail n1 n2).
  - rewrite run_Lit. eauto.
Qed.

Lemma re_match_prefix_shape filename :
  is_Some (re_match filename_pattern filename) <-> prefix_shape filename.
Proof.
  split.
  - intros [m E]. unfold re_match in E.
    apply run_sound in E as (w & t & gs & E & L & _). cbn [rest prev] in E, L.
    unfold filename_pattern in L. cbn [lang] in L.
    destruct L as (code & w1 & -> & (Dc & Lc1 & Lc2) & d1 & w2 & -> &
                   (c1 & -> & M1) & yr & w3 & -> & (Dy & Ly1 & Ly2) & d2 & w4 & -> &
                   (c2 & -> & M2) & name & w5 & -> & (Ln & _) & d3 & w6 & -> &
                   (c3 & -> & M3) & L).
    apply lang_Lit in L as ->. cbn in Lc2, Ly2, M1, M2, M3.
    apply N.eqb_eq in M1 as ->, M2 as ->, M3 as ->.
    exists code, yr, name, t. subst filename. repeat split; auto; try lia.
    rewrite <- !app_assoc. reflexivity.
  - intros (code & yr & name & tail & -> & Dc & Dy & Ln).
    destruct (shortest_name_exists name tail Ln) as (name' & tail' & -> & Ln' & M).
    destruct (re_match_shape code yr name' tail' Dc Dy Ln' M) as (p & ->). eauto.
Qed.

Lemma py_int_digits n yr :
  digits (S n) yr ->
  exists y, digits_value 0 yr = Some y /\ py_int (Some yr) = Returned y.
Proof.
  intros [L D]. destruct (digits_value_total yr 0%Z D) as [y E].
  exists y. split; [exact E|]. unfold py_int.
  destruct yr; [discriminate | now rewrite E].
Qed.

Lemma parse_filename_shape code yr name tail :
  digits 6 code -> digits 4 yr -> one_line name -> shortest_name name tail ->
  exists y,
    digits_value 0 yr = Some y /\
    parse_filename (code ++ dash :: yr ++ dash :: name ++ dot_txt ++ tail)
    = Returned (Some code, Some y, Some name).
Proof.
  intros Dc Dy Ln M.
  destruct (re_match_shape code yr name tail Dc Dy Ln M) as (p & E).
  destruct (py_int_digits 3 yr Dy) as (y & V & I).
  exists y. split; [exact V|].
  unfold parse_filename. rewrite E. unfold group; cbn [groups].
  set (gs := <[3 := name]> (<[2 := yr]> (<[1 := code]> ∅))).
  assert (G1 : gs !! 1 = Some code) by (subst gs; now simplify_map_eq).
  assert (G2 : gs !! 2 = Some yr) by (subst gs; now simplify_map_eq).
  assert (G3 : gs !! 3 = Some name) by (subst gs; now simplify_map_eq).
  rewrite G1, G2, G3, I. reflexivity.
Qed.

Lemma parse_filename_absent filename :
  parse_filename filename = Returned (None, None, None) <-> ~ prefix_shape filename.
Proof.
  split.
  - intros E (code & yr & name & tail & -> & Dc & Dy & Ln).
    destruct (shortest_name_exists name tail Ln) as (name' & tail' & E' & Ln' & M).
    rewrite E' in E.
    destruct (parse_filename_shape code yr name' tail' Dc Dy Ln' M) as (y & _ & P).
    congruence.
  - intros N. unfold parse_filename.
    destruct (re_match filename_pattern filename) as [m|] eqn:E; [|reflexivity].
    destruct N. apply re_match_prefix_shape. eauto.
Qed.

(** [parse_filename] never raises. *)
Lemma parse_filename_returns filename :
  exists r, parse_filename filename = Returned r.
Proof.
  destruct (re_match filename_pattern filename) as [m|] eqn:E.
  - assert (S : prefix_shape filename) by (apply re_match_prefix_shape; eauto).
    destruct S as (code & yr & name & tail & -> & Dc & Dy & Ln).
    destruct (shortest_name_exists name tail Ln) as (name' & tail' & -> & Ln' & M).
    destruct (parse_filename_shape code yr name' tail' Dc Dy Ln' M) as (y & _ & P).
    eauto.
  - unfold parse_filename. rewrite E. eauto.
Qed.

End Shape.
End FilenameFacts.

(** ** Evaluating the keyword checks on plain text *)

Section PlainText.
Context `{Unicode} `{!LowerLaws}.

Lemma any_keyword_ascii keywords text :
  forallb plain_str keywords = true ->
  any_keyword keywords text = @any_keyword Unicode_ascii keywords text.
Proof.
  induction keywords as [|k ks IH]; cbn; [reflexivity|].
  intros P. apply andb_true_iff in P as [Pk P].
  rewrite (lower_plain k Pk), IH by exact P. reflexivity.
Qed.

Lemma check_standards_compliance_ascii text :
  plain_str text = true ->
  check_standards_compliance text = @check_standards_compliance Unicode_ascii text.
Proof.
  intros P. unfold check_standards_compliance.
  rewrite (lower_plain text P). now apply any_keyword_ascii.
Qed.

Lemma check_third_party_assurance_ascii text :
  plain_str text = true ->
  check_third_party_assurance text = @check_third_party_assurance Unicode_ascii text.
Proof.
  intros P. unfold check_third_party_assurance.
  rewrite (lower_plain text P). now apply any_keyword_ascii.
Qed.

End PlainText.

Ltac plain_keyword_check :=
  first [ rewrite check_standards_compliance_ascii by (vm_compute; reflexivity)
        | rewrite check_third_party_assurance_ascii by (vm_compute; reflexivity) ];
  vm_compute; reflexivity.

Lemma analyze_report_text `{Unicode} (d : disk) (txt_path : str) :
  analyze_report d txt_path =
  match extract_text_from_txt d txt_path with
  | [] => None
  | c :: text => Some (scores_of (c :: text))
  end.
Proof. unfold analyze_report. now destruct (extract_text_from_txt d txt_path). Qed.

Lemma ascii_digit_mem `{Unicode} `{!DigitLaws} c :
  (48 <= c <= 57)%N -> Re.mem Re.Digit c = true.
Proof.
  intros R. cbn. apply bool_decide_eq_true. rewrite (decimal_ascii c R). eauto.
Qed.

(** ** The batch driver, step by step *)

Section Driver.
Context `{Unicode}.

Lemma year_in_range_spec y :
  year_in_range (Some y) = true <-> (2015 <= y <= 2023)%Z.
Proof.
  unfold year_in_range.
  rewrite !andb_true_iff, negb_true_iff, Z.eqb_neq, !Z.leb_le. lia.
Qed.

Lemma main_step_parsed d acc txt_file code year name :
  parse_filename txt_file = Returned (code, year, name) ->
  main_step d acc txt_file =
  if year_in_range year then scored d acc txt_file code year name
  else filtered_out acc txt_file.
Proof.
  intros P. unfold main_step, process_file, scored, filtered_out.
  rewrite P. cbn [mbind outcome_bind].
  destruct (year_in_range year); [|reflexivity].
  rewrite analyze_report_text.
  destruct (extract_text_from_txt d txt_file) as [|c text]; [reflexivity|].
  unfold scores_of, getitem. simplify_map_eq. reflexivity.
Qed.

Lemma reasons_differ : analysis_failed <> year_out_of_range.
Proof. vm_compute. discriminate. Qed.

Lemma scored_not_filtered d acc txt_file code year name :
  scored d acc txt_file code year name <> filtered_out acc txt_file.
Proof.
  unfold scored, filtered_out.
  destruct (extract_text_from_txt d txt_file) as [|c text]; intros [= E].
  - apply app_inj_tail in E as [_ E]. pose proof reasons_differ. congruence.
  - apply (f_equal length) in E. rewrite length_app in E. cbn in E. lia.
Qed.

Lemma main_step_rows d acc txt_file :
  rows_in_range acc -> rows_in_range (main_step d acc txt_file).
Proof.
  intros I.
  destruct (FilenameFacts.parse_filename_returns txt_file) as ([[code yr] name] & P).
  rewrite (main_step_parsed d acc txt_file code yr name P).
  destruct (year_in_range yr) eqn:R; [|exact I].
  unfold scored. destruct (extract_text_from_txt d txt_file); [exact I|].
  intros row Hr. cbn [results] in Hr.
  apply elem_of_app in Hr as [Hr | Hr]; [now apply I|].
  apply list_elem_of_singleton in Hr as ->. cbn [year].
  destruct yr as [y|]; [|discriminate]. exists y. split; [reflexivity|].
  now apply year_in_range_spec.
Qed.

Lemma main_step_filtered d acc txt_file g :
  filtered (main_step d acc txt_file) g <->
  filtered acc g \/
  (g = txt_file /\ exists code yr name,
     parse_filename txt_file = Returned (code, yr, name) /\
     year_in_range yr = false).
Proof.
  destruct (FilenameFacts.parse_filename_returns txt_file) as ([[code yr] name] & P).
  rewrite (main_step_parsed d acc txt_file code yr name P). unfold filtered.
  destruct (year_in_range yr) eqn:R.
  - assert (S : FailedFile g year_out_of_range
                  ∈ failed_files (scored d acc txt_file code yr name) <->
                FailedFile g year_out_of_range ∈ failed_files acc).
    { unfold scored. destruct (extract_text_from_txt d txt_file); [|reflexivity].
      cbn [failed_files]. rewrite elem_of_app, list_elem_of_singleton.
      split; [|now left].
      intros [? | E]; [assumption|]. pose proof reasons_differ. congruence. }
    rewrite S. split; [now left|].
    intros [? | (-> & c & y & n & P' & R')]; [assumption|].
    rewrite P in P'. injection P' as <- <- <-. congruence.
  - unfold filtered_out. cbn [failed_files].
    rewrite elem_of_app, list_elem_of_singleton. split.
    + intros [? | [= ->]]; [now left | right]. split; [reflexivity|]. eauto.
    + intros [? | (-> & _)]; [now left | now right].
Qed.

Lemma fold_rows d files :
  forall acc, rows_in_range acc ->
  rows_in_range (fold_left (main_step d) files acc).
Proof.
  induction files as [|f files IH]; intros acc I; cbn; [exact I|].
  now apply IH, main_step_rows.
Qed.

Lemma fold_filtered d files g :
  forall acc,
  filtered (fold_left (main_step d) files acc) g <->
  filtered acc g \/
  (g ∈ files /\ exists code yr name,
     parse_filename g = Returned (code, yr, name) /\ year_in_range yr = false).
Proof.
  induction files as [|f files IH]; intros acc; cbn [fold_left].
  - split; [now left | intros [? | (E & _)]; [assumption | inversion E]].
  - rewrite IH, main_step_filtered, elem_of_cons. split.
    + intros [[? | (-> & ?)] | (? & ?)]; auto.
    + intros [? | ([-> | ?] & ?)]; auto.
Qed.

End Driver.

Example main_loop_four_years :
  let d : disk := fun _ => Some (u "GRI 120吨") in
  let t := @main_loop Unicode_ascii d
             [ u "600000-2014-A.txt"; u "600000-2015-A.txt";
               u "600000-2023-A.txt"; u "600000-2024-A.txt" ] in
  map year (results t) = [Some 2015%Z; Some 2023%Z] /\
  failed_files t =
    [ FailedFile (u "600000-2014-A.txt") year_out_of_range;
      FailedFile (u "600000-2024-A.txt") year_out_of_range ].
Proof. vm_compute. split; reflexivity. Qed.

(** ** Monotonicity *)

Section Monotone.
Context `{Unicode}.

Lemma any_keyword_mono keywords t t' :
  (forall k, k ∈ keywords -> substring_of (str_lower k) t ->
     substring_of (str_lower k) t') ->
  (any_keyword keywords t <= any_keyword keywords t')%Z.
Proof.
  intros M.
  destruct (any_keyword_range keywords t) as [E | E]; rewrite E.
  - destruct (any_keyword_range keywords t') as [E' | E']; rewrite E'; lia.
  - apply any_keyword_one in E as (k & Hk & S).
    assert (E' : any_keyword keywords t' = 1%Z)
      by (apply any_keyword_one; exists k; auto).
    rewrite E'. lia.
Qed.

Lemma check_quantitative_metrics_mono t t' :
  (metrics_match t -> metrics_match t') ->
  (check_quantitative_metrics t <= check_quantitative_metrics t')%Z.
Proof.
  intros M.
  destruct (check_quantitative_metrics_range t) as [E | E]; rewrite E.
  - destruct (check_quantitative_metrics_range t') as [E' | E']; rewrite E'; lia.
  - apply check_quantitative_metrics_one, M, check_quantitative_metrics_one in E.
    rewrite E. lia.
Qed.

Lemma number_unit_occurs_append unit t more :
  number_unit_occurs unit t -> number_unit_occurs unit (t ++ more).
Proof.
  intros (a & w & b & -> & N). exists a, w, (b ++ more).
  split; [now rewrite <- !app_assoc | exact N].
Qed.

Lemma heading_occurs_append keyword t more :
  heading_occurs keyword t -> heading_occurs keyword (t ++ more).
Proof.
  intros [(b & ->) | (a & b & ->)]; [left; exists (b ++ more) | right; exists a, (b ++ more)].
  - now rewrite <- app_assoc.
  - rewrite <- app_assoc. cbn [app]. now rewrite <- app_assoc.
Qed.

Context `{!LowerLaws}.

Lemma any_keyword_variant keywords a m b :
  forallb plain_str keywords = true ->
  keyword_variant keywords m ->
  any_keyword keywords (str_lower (a ++ m ++ b)) = 1%Z.
Proof.
  intros P (Pm & k & Hk & E). apply any_keyword_one. exists k. split; [exact Hk|].
  rewrite forallb_forall in P. apply list_elem_of_In in Hk as Hk'.
  rewrite (lower_plain k (P k Hk')), <- E. now apply lower_within.
Qed.

Lemma any_keyword_append keywords t more :
  forallb (fun k => plain_str k && plain_str (map ascii_lower k)) keywords = true ->
  (any_keyword keywords (str_lower t)
   <= any_keyword keywords (str_lower (t ++ more)))%Z.
Proof.
  intros P. apply any_keyword_mono. intros k Hk S.
  rewrite forallb_forall in P. apply list_elem_of_In, P in Hk.
  apply andb_true_iff in Hk as [Pk Pl].
  rewrite (lower_plain k Pk) in S |- *. now apply lower_append.
Qed.

End Monotone.

(** ** File names: tests that compute *)

Section FilenameTests.
Import Re Lang ReFacts FilenameFacts.
Context `{Unicode}.

Lemma no_early_txt_shortest name tail :
  no_early_txt name tail = true -> shortest_name name tail.
Proof.
  unfold no_early_txt. rewrite forallb_forall. intros T n1 b E.
  destruct (le_lt_dec (length name) (length n1)) as [L | L]; [exact L|].
  specialize (T (length n1)). rewrite E, drop_app_length in T.
  assert (S : starts_with dot_txt (dot_txt ++ b) = true)
    by (apply starts_with_spec; now exists b).
  rewrite S in T. cbn in T. 
  assert (I : In (length n1) (seq 0 (length name))) by (apply in_seq; lia).
  apply T in I. discriminate.
Qed.

Lemma fixed_shape_suffix filename :
  fixed_shape filename -> starts_with (rev dot_txt) (rev filename) = true.
Proof.
  intros (code & yr & name & -> & _). apply starts_with_spec.
  exists (rev (code ++ dash :: yr ++ dash :: name)).
  rewrite <- rev_app_distr. f_equal.
  rewrite <- !app_assoc. cbn [app]. rewrite <- !app_assoc. reflexivity.
Qed.

Lemma prefix_shape_dashes filename :
  prefix_shape filename ->
  filename !! 6 = Some dash /\ filename !! 11 = Some dash.
Proof.
  intros (code & yr & name & tail & -> & [Lc _] & [Ly _] & _).
  do 7 (destruct code as [|? code]; try discriminate).
  do 5 (destruct yr as [|? yr]; try discriminate).
  split; reflexivity.
Qed.

Context `{!DigitLaws}.

Lemma ascii_digits_all_in s : ascii_digits s = true -> all_in Digit s = true.
Proof.
  unfold ascii_digits, all_in. rewrite !forallb_forall. intros A c Hc.
  apply A, andb_true_iff in Hc as [L U]. apply N.leb_le in L, U.
  apply ascii_digit_mem. lia.
Qed.

Lemma digits_value_ascii s :
  forall acc, ascii_digits s = true ->
  digits_value acc s = @digits_value Unicode_ascii acc s.
Proof.
  induction s as [|c s IH]; intros acc A; cbn in *; [reflexivity|].
  apply andb_true_iff in A as [Ac A].
  apply andb_true_iff in Ac as [L U]. apply N.leb_le in L, U.
  rewrite (decimal_ascii c (conj L U)). unfold ascii_decimal.
  apply N.leb_le in L, U. rewrite L, U. cbn. now apply IH.
Qed.

(** [parse_filename] on a name whose code and year are ASCII digits. *)
Lemma parse_filename_ascii code yr name tail y :
  length code = 6 -> ascii_digits code = true ->
  length yr = 4 -> ascii_digits yr = true ->
  all_in Dot name = true -> no_early_txt name tail = true ->
  @digits_value Unicode_ascii 0 yr = Some y ->
  parse_filename (code ++ dash :: yr ++ dash :: name ++ dot_txt ++ tail)
  = Returned (Some code, Some y, Some name).
Proof.
  intros Lc Ac Ly Ay Ln T V.
  destruct (parse_filename_shape code yr name tail) as (y' & V' & P).
  - split; [exact Lc | now apply ascii_digits_all_in].
  - split; [exact Ly | now apply ascii_digits_all_in].
  - exact Ln.
  - now apply no_early_txt_shortest.
  - rewrite digits_value_ascii in V' by exact Ay. congruence.
Qed.

End FilenameTests.

(** ** The batch driver, file by file *)

Section Records.
Context `{Unicode}.

Lemma main_step_record d acc txt_file :
  main_step d acc txt_file =
  match record_of d txt_file with
  | inl row => Tables (results acc ++ [row]) (failed_files acc)
  | inr failure => Tables (results acc) (failed_files acc ++ [failure])
  end.
Proof.
  destruct (FilenameFacts.parse_filename_returns txt_file) as ([[code yr] name] & P).
  rewrite (main_step_parsed d acc txt_file code yr name P).
  unfold record_of, scored, filtered_out. rewrite P.
  destruct (year_in_range yr); [|reflexivity].
  now destruct (extract_text_from_txt d txt_file).
Qed.

Lemma fold_records d txt_files :
  forall acc,
  fold_left (main_step d) txt_files acc =
  Tables (results acc ++ omap (row_of d) txt_files)
    (failed_files acc ++ omap (failure_of d) txt_files).
Proof.
  induction txt_files as [|f fs IH]; intros [rs ffs]; cbn [fold_left omap list_omap].
  - cbn. now rewrite !app_nil_r.
  - rewrite IH, main_step_record. unfold row_of, failure_of.
    destruct (record_of d f); cbn [results failed_files];
      now rewrite <- app_assoc.
Qed.

Lemma main_loop_records d txt_files :
  main_loop d txt_files =
  Tables (omap (row_of d) txt_files) (omap (failure_of d) txt_files).
Proof. unfold main_loop. now rewrite fold_records. Qed.

Lemma record_of_file d txt_file failure :
  record_of d txt_file = inr failure -> file failure = txt_file.
Proof.
  unfold record_of. destruct (parse_filename txt_file) as [[[code yr] name]|e].
  - destruct (year_in_range yr); [|now intros [= <-]].
    destruct (extract_text_from_txt d txt_file); [now intros [= <-] | discriminate].
  - now intros [= <-].
Qed.

End Records.

Section RecordFacts.
Context `{Unicode}.

Lemma record_of_parsed d txt_file code yr name :
  parse_filename txt_file = Returned (code, yr, name) ->
  record_of d txt_file =
  if year_in_range yr then
    match extract_text_from_txt d txt_file with
    | [] => inr (FailedFile txt_file analysis_failed)
    | c :: text =>
      inl (ResultRow code name yr
             (check_standards_compliance (c :: text))
             (check_third_party_assurance (c :: text))
             (check_quantitative_metrics (c :: text))
             (check_standards_compliance (c :: text)
              + check_third_party_assurance (c :: text)
              + check_quantitative_metrics (c :: text)))
    end
  else inr (FailedFile txt_file year_out_of_range).
Proof. intros P. unfold record_of. now rewrite P. Qed.

Lemma failed_file_reason f1 r1 f2 r2 :
  FailedFile f1 r1 = FailedFile f2 r2 -> r1 = r2.
Proof. now intros [= _ ->]. Qed.

Lemma processing_error_head e : head (processing_error e) = Some 22788%N.
Proof. reflexivity. Qed.

Lemma processing_error_not_year e : processing_error e <> year_out_of_range.
Proof.
  intros E. pose proof (processing_error_head e) as P. rewrite E in P.
  vm_compute in P. discriminate P.
Qed.

Lemma processing_error_not_failed e : processing_error e <> analysis_failed.
Proof.
  intros E. pose proof (processing_error_head e) as P. rewrite E in P.
  vm_compute in P. discriminate P.
Qed.

Lemma elem_of_failures d (txt_files : list str) failure :
  failure ∈ omap (failure_of d) txt_files <->
  exists f, f ∈ txt_files /\ record_of d f = inr failure.
Proof.
  rewrite list_elem_of_omap. unfold failure_of.
  split; intros (f & Hf & E); exists f; (split; [exact Hf|]);
    destruct (record_of d f); congruence.
Qed.

Lemma elem_of_rows d (txt_files : list str) row :
  row ∈ omap (row_of d) txt_files <->
  exists f, f ∈ txt_files /\ record_of d f = inl row.
Proof.
  rewrite list_elem_of_omap. unfold row_of.
  split; intros (f & Hf & E); exists f; (split; [exact Hf|]);
    destruct (record_of d f); congruence.
Qed.

Lemma failures_sublist d (txt_files : list str) :
  map file (omap (failure_of d) txt_files) `sublist_of` txt_files.
Proof.
  induction txt_files as [|f fs IH]; cbn [omap list_omap map]; [constructor|].
  unfold failure_of at 1. destruct (record_of d f) as [row|failure] eqn:E.
  - now apply sublist_cons.
  - cbn [map]. rewrite (record_of_file d f failure E). now apply sublist_skip.
Qed.

End RecordFacts.

(** ** The order of the written rows *)

Lemma str_le_refl a : str_le a a = true.
Proof.
  induction a as [|x a IH]; cbn; [reflexivity|].
  now rewrite N.ltb_irrefl, N.eqb_refl.
Qed.

Lemma str_le_total a : forall b, str_le a b = true \/ str_le b a = true.
Proof.
  induction a as [|x a IH]; intros [|y b]; cbn; auto.
  destruct (N.ltb_spec x y) as [L | L]; [now left|].
  destruct (N.ltb_spec y x) as [L' | L']; [now right|].
  assert (x = y) as -> by lia. rewrite N.eqb_refl. apply IH.
Qed.

Lemma str_le_antisym a :
  forall b, str_le a b = true -> str_le b a = true -> a = b.
Proof.
  induction a as [|x a IH]; intros [|y b]; cbn; try discriminate; [reflexivity|].
  destruct (N.ltb_spec x y) as [L | L]; destruct (N.ltb_spec y x) as [L' | L'];
    try lia.
  - destruct (N.eqb_spec y x); [lia | discriminate].
  - destruct (N.eqb_spec x y); [lia | discriminate].
  - destruct (N.eqb_spec x y) as [-> | ?]; [|discriminate].
    rewrite N.eqb_refl. intros A B. f_equal. now apply IH.
Qed.

Lemma str_le_trans a :
  forall b c, str_le a b = true -> str_le b c = true -> str_le a c = true.
Proof.
  induction a as [|x a IH]; intros [|y b] [|z c]; cbn; try discriminate; auto.
  destruct (N.ltb_spec x y) as [L | L].
  - intros _. destruct (N.ltb_spec y z) as [L' | L'].
    + intros _. destruct (N.ltb_spec x z); [reflexivity | lia].
    + destruct (N.eqb_spec y z) as [-> | ?]; [|discriminate]. intros _.
      destruct (N.ltb_spec x z); [reflexivity | lia].
  - destruct (N.eqb_spec x y) as [-> | ?]; [|discriminate]. intros A.
    destruct (N.ltb_spec y z) as [L' | L']; [reflexivity|].
    destruct (N.eqb_spec y z) as [-> | ?]; [|discriminate]. now apply IH.
Qed.

Section KeyOrder.
Context {A : Type} (le : A -> A -> bool).

Lemma key_le_total :
  (forall a b, le a b = true \/ le b a = true) ->
  forall x y, key_le le x y = true \/ key_le le y x = true.
Proof. intros T [a|] [b|]; cbn; auto. Qed.

Lemma key_le_trans :
  (forall a b c, le a b = true -> le b c = true -> le a c = true) ->
  forall x y z, key_le le x y = true -> key_le le y z = true ->
    key_le le x z = true.
Proof. intros T [a|] [b|] [c|]; cbn; try discriminate; auto. apply T. Qed.

Lemma key_le_antisym :
  (forall a b, le a b = true -> le b a = true -> a = b) ->
  forall x y, key_le le x y = true -> key_le le y x = true -> x = y.
Proof.
  intros T [a|] [b|]; cbn; try discriminate; auto.
  intros L1 L2. f_equal. now apply T.
Qed.

End KeyOrder.

Lemma year_le_total (a b : Z) : (a <=? b)%Z = true \/ (b <=? a)%Z = true.
Proof. rewrite !Z.leb_le. lia. Qed.

Lemma year_le_trans (a b c : Z) :
  (a <=? b)%Z = true -> (b <=? c)%Z = true -> (a <=? c)%Z = true.
Proof. rewrite !Z.leb_le. lia. Qed.

#[local] Instance row_le_total : Total (fun r1 r2 : result_row => row_le r1 r2).
Proof.
  intros r1 r2. unfold row_le.
  destruct (decide (stock_code r1 = stock_code r2)) as [E | N].
  - rewrite decide_True by congruence.
    destruct (key_le_total Z.leb year_le_total (year r1) (year r2)) as [L | L];
      rewrite L; [now left | now right].
  - rewrite decide_False by congruence.
    destruct (key_le_total str_le str_le_total (stock_code r1) (stock_code r2))
      as [L | L]; rewrite L; [now left | now right].
Qed.

#[local] Instance row_le_transitive :
  Transitive (fun r1 r2 : result_row => row_le r1 r2).
Proof.
  intros r1 r2 r3. unfold row_le. rewrite !Is_true_true.
  destruct (decide (stock_code r1 = stock_code r2)) as [E12 | N12];
    destruct (decide (stock_code r2 = stock_code r3)) as [E23 | N23].
  - rewrite decide_True by congruence.
    apply (key_le_trans Z.leb year_le_trans).
  - rewrite decide_False by congruence. rewrite E12. auto.
  - rewrite decide_False by congruence. rewrite <- E23. auto.
  - intros L12 L23.
    destruct (decide (stock_code r1 = stock_code r3)) as [E13 | N13].
    + rewrite <- E13 in L23. destruct N12.
      now apply (key_le_antisym str_le str_le_antisym).
    + now apply (key_le_trans str_le str_le_trans _ (stock_code r2)).
Qed.

Lemma StronglySorted_weaken {A} (R R' : A -> A -> Prop) l :
  (forall x y, R x y -> R' x y) -> StronglySorted R l -> StronglySorted R' l.
Proof.
  intros W S. induction S as [|x l S IH F]; constructor; [exact IH|].
  eapply Forall_impl; [exact F | apply W].
Qed.

Section ParseCases.
Context `{Unicode}.
Import Re Lang ReFacts FilenameFacts.

(** The result of [parse_filename] is all-absent, or the three parts of a
    name of the shape. *)
Lemma parse_filename_cases filename :
  parse_filename filename = Returned (None, None, None) \/
  exists code yr name tail y,
    parse_filename filename = Returned (Some code, Some y, Some name) /\
    filename = code ++ dash :: yr ++ dash :: name ++ dot_txt ++ tail /\
    digits 6 code /\ digits 4 yr /\ digits_value 0 yr = Some y /\
    one_line name /\ shortest_name name tail.
Proof.
  destruct (re_match filename_pattern filename) as [m|] eqn:E.
  - right.
    assert (S : prefix_shape filename) by (apply re_match_prefix_shape; eauto).
    destruct S as (code & yr & name & tail & -> & Dc & Dy & Ln).
    destruct (shortest_name_exists name tail Ln) as (name' & tail' & E' & Ln' & M).
    destruct (parse_filename_shape code yr name' tail' Dc Dy Ln' M) as (y & V & P).
    exists code, yr, name', tail', y. rewrite E'. auto 10.
  - left. unfold parse_filename. now rewrite E.
Qed.

End ParseCases.

(** ** Years and digits *)

Section YearBound.
Context `{Unicode}.

Lemma digits_value_nonneg s :
  forall acc y, (0 <= acc)%Z -> digits_value acc s = Some y -> (0 <= y)%Z.
Proof.
  induction s as [|c s IH]; intros acc y A E; cbn in E.
  - injection E as <-. exact A.
  - destruct (decimal_value c) as [v|]; [|discriminate].
    pose proof (N2Z.is_nonneg v). apply (IH (10 * acc + Z.of_N v)%Z y); [lia | exact E].
Qed.

Lemma digits_value_bound `{!DigitRange} s :
  forall acc y, digits_value acc s = Some y ->
  (acc * 10 ^ Z.of_nat (length s) <= y
   < (acc + 1) * 10 ^ Z.of_nat (length s))%Z.
Proof.
  induction s as [|c s IH]; intros acc y E; cbn [digits_value length] in E |- *.
  - injection E as <-. cbn. lia.
  - destruct (decimal_value c) as [v|] eqn:V; [|discriminate].
    apply decimal_below_ten in V. apply IH in E.
    pose proof (N2Z.is_nonneg v) as V0.
    assert (V9 : (Z.of_N v <= 9)%Z) by lia.
    rewrite Nat2Z.inj_succ, Z.pow_succ_r by lia.
    assert (P : (0 < 10 ^ Z.of_nat (length s))%Z) by (apply Z.pow_pos_nonneg; lia).
    nia.
Qed.

End YearBound.

(** ** The two patterns, reduced *)

Ltac reassoc :=
  repeat first [rewrite <- app_assoc | progress cbn [app]]; reflexivity.

Section Reduced.
Context `{Unicode}.
Import Re Lang ReFacts.

Lemma all_in_app cs a b :
  all_in cs (a ++ b) = true <-> all_in cs a = true /\ all_in cs b = true.
Proof. unfold all_in. rewrite forallb_app. apply andb_true_iff. Qed.

Lemma digit_run_last ds :
  digit_run ds -> exists ds' c, ds = ds' ++ [c] /\ mem Digit c = true.
Proof.
  intros [N D]. destruct ds as [|x ds _] using rev_ind; [congruence|].
  apply all_in_app in D as [_ D]. unfold all_in in D. cbn [forallb] in D.
  rewrite andb_true_r in D.
  now exists ds, x.
Qed.

Lemma number_unit_occurs_reduced unit text :
  number_unit_occurs unit text <-> digit_then_unit unit text.
Proof.
  split.
  - intros (a & w & b & -> & ds & frac & sp & -> & Dd & F & Sp).
    destruct F as [-> | (fs & -> & Fd)].
    + apply digit_run_last in Dd as (ds' & c & -> & M).
      exists (a ++ ds'), c, sp, b. repeat split; auto.
      reassoc.
    + apply digit_run_last in Fd as (fs' & c & -> & M).
      exists (a ++ ds ++ 46%N :: fs'), c, sp, b. repeat split; auto.
      reassoc.
  - intros (a & c & sp & b & -> & M & Sp).
    exists a, (c :: sp ++ unit), b. split; [reassoc|].
    exists [c], [], sp. split; [reflexivity|].
    split; [split; [discriminate | unfold all_in; cbn [forallb]; now rewrite M]|].
    split; [now left | exact Sp].
Qed.

Lemma search_digit_unit unit text :
  truthy (re_search (digit_unit_pattern unit) text) = true <->
  digit_then_unit unit text.
Proof.
  rewrite re_search_spec. unfold digit_then_unit, digit_unit_pattern. cbn [lang].
  split.
  - intros (a & w & b & -> & w1 & w2 & -> & (c & -> & M) & sp & w3 & -> &
            (Sp & _) & L).
    apply lang_Lit in L as ->. exists a, c, sp, b. repeat split; auto.
    reassoc.
  - intros (a & c & sp & b & -> & M & Sp).
    exists a, (c :: sp ++ unit), b. split; [reassoc|].
    exists [c], (sp ++ unit). repeat split; eauto.
    exists sp, unit. repeat split; auto; [lia|]. now apply lang_Lit.
Qed.

Lemma search_line_start keyword text :
  truthy (re_search (line_start_pattern keyword) text) = true <->
  heading_occurs keyword text.
Proof.
  rewrite re_search_spec. unfold heading_occurs, line_start_pattern. cbn [lang].
  split.
  - intros (a & w & b & -> & w1 & w2 & -> & (-> & L) & K).
    apply lang_Lit in K as ->. cbn [app].
    destruct (last_of None a) as [c|] eqn:E.
    + cbn in L. apply N.eqb_eq in L as ->.
      apply last_of_after in E as (a' & ->). right. exists a', b.
      reassoc.
    + apply last_of_start in E as ->. left. now exists b.
  - intros [(b & ->) | (a & b & ->)].
    + exists [], keyword, b. split; [reflexivity|].
      exists [], keyword. repeat split. now apply lang_Lit.
    + exists (a ++ [LF]), keyword, b. split; [reassoc|].
      exists [], keyword. repeat split.
      * now rewrite last_of_snoc.
      * now apply lang_Lit.
Qed.

End Reduced.

Lemma bool_eq_iff (x y : bool) : (x = true <-> y = true) -> x = y.
Proof.
  destruct x, y; intros [A B]; try reflexivity.
  - symmetry. now apply A.
  - now apply B.
Qed.

(** ** Keyword lists as sets *)

Lemma any_keyword_same_set `{Unicode} (ks ks' : list str) text :
  (forall k, k ∈ ks <-> k ∈ ks') ->
  any_keyword ks text = any_keyword ks' text.
Proof.
  intros S.
  destruct (any_keyword_range ks text) as [E | E]; rewrite E.
  - symmetry. apply any_keyword_zero. intros (k & Hk & O).
    apply any_keyword_zero in E. apply E. exists k. split; [now apply S | exact O].
  - symmetry. apply any_keyword_one. apply any_keyword_one in E as (k & Hk & O).
    exists k. split; [now apply S | exact O].
Qed.

Lemma Unicode_ascii_range : @DigitRange Unicode_ascii.
Proof.
  intros c v. cbn. unfold ascii_decimal.
  destruct (48 <=? c)%N eqn:L; destruct (c <=? 57)%N eqn:U; cbn;
    try discriminate.
  intros [= <-]. apply N.leb_le in L, U. lia.
Qed.

(** ** The PDF analyzer *)

Section QualityFacts.
Context `{Unicode}.

Lemma any_keyword_app (ks1 ks2 : list str) text :
  any_keyword (ks1 ++ ks2) text =
  if (any_keyword ks1 text =? 1)%Z then 1%Z else any_keyword ks2 text.
Proof.
  induction ks1 as [|k ks IH]; cbn; [reflexivity|].
  destruct (str_in (str_lower k) text); [reflexivity | exact IH].
Qed.

Lemma standards_keywords_split :
  standards_keywords = Quality.standards_keywords ++ [u "上市公司社会责任指引"].
Proof. reflexivity. Qed.

Lemma read_pages_all texts :
  forall text, Quality.read_pages text (map Some texts) = Some (text ++ concat texts).
Proof.
  induction texts as [|t ts IH]; intros text; cbn.
  - now rewrite app_nil_r.
  - rewrite IH. now rewrite <- app_assoc.
Qed.

Lemma read_pages_failure pages :
  forall text, Quality.read_pages text pages = None <-> None ∈ pages.
Proof.
  induction pages as [|[p|] ps IH]; intros text; cbn.
  - split; [discriminate | intros I; inversion I].
  - rewrite IH, elem_of_cons. split; [now right | now intros [? | ?]].
  - split; [intros _; left | reflexivity].
Qed.

Lemma read_pages_some pages :
  forall text r, Quality.read_pages text pages = Some r ->
  exists texts, pages = map Some texts /\ r = text ++ concat texts.
Proof.
  induction pages as [|[p|] ps IH]; intros text r E; cbn in E.
  - injection E as <-. exists []. cbn. now rewrite app_nil_r.
  - apply IH in E as (ts & -> & ->). exists (p :: ts). cbn.
    now rewrite <- app_assoc.
  - discriminate.
Qed.

Lemma quality_standards_ascii `{!LowerLaws} text :
  plain_str text = true ->
  Quality.check_standards_compliance text
  = @Quality.check_standards_compliance Unicode_ascii text.
Proof.
  intros P. unfold Quality.check_standards_compliance.
  rewrite (lower_plain text P). now apply any_keyword_ascii.
Qed.

End QualityFacts.
(** * The claims *)

Import FilenameFacts.

(** C1.  For every text, [check_standards_compliance] returns 1 exactly when
    some keyword of the standards list, lower-cased, occurs as a substring
    of the lower-cased text, and 0 otherwise; the case folding is that of
    [str.lower], and no word boundary is asked for (the word "integrity"
    scores 1 through "gri").  [check_third_party_assurance] is
    characterised the same way against the assurance list, and the two
    results are independent: every pair of values in {0,1} is the pair of
    scores of some text.  Only the examples need to know what [str.lower]
    does. *)
Theorem keyword_checks_characterised `{Unicode} :
  (forall text,
     (check_standards_compliance text = 1%Z <->
        exists keyword, keyword ∈ standards_keywords /\
          substring_of (str_lower keyword) (str_lower text)) /\
     (check_standards_compliance text = 0%Z <->
        ~ exists keyword, keyword ∈ standards_keywords /\
            substring_of (str_lower keyword) (str_lower text)) /\
     (check_third_party_assurance text = 1%Z <->
        exists keyword, keyword ∈ assurance_keywords /\
          substring_of (str_lower keyword) (str_lower text)) /\
     (check_third_party_assurance text = 0%Z <->
        ~ exists keyword, keyword ∈ assurance_keywords /\
            substring_of (str_lower keyword) (str_lower text))) /\
  (LowerLaws ->
     check_standards_compliance (u "integrity") = 1%Z /\
     forall s a : Z, s = 0%Z \/ s = 1%Z -> a = 0%Z \/ a = 1%Z ->
       exists text,
         check_standards_compliance text = s /\
         check_third_party_assurance text = a).
Proof.
  split.
  - intros text. unfold check_standards_compliance, check_third_party_assurance.
    repeat split; first [apply any_keyword_one | apply any_keyword_zero].
  - intros L. split; [plain_keyword_check|].
    intros s a [-> | ->] [-> | ->].
    + exists (u "annual report"). split; plain_keyword_check.
    + exists (u "assured by an auditor"). split; plain_keyword_check.
    + exists (u "prepared under GRI"). split; plain_keyword_check.
    + exists (u "GRI report, assured by an auditor"). split; plain_keyword_check.
Qed.

Lemma keyword_checks_characterised_witness :
  @LowerLaws Unicode_ascii /\
  @check_standards_compliance Unicode_ascii (u "integrity") = 1%Z.
Proof.
  split; [exact Unicode_ascii_lower|].
  apply (proj2 (@keyword_checks_characterised Unicode_ascii) Unicode_ascii_lower).
Defined.

(** C2.  [analyze_report] returns [None] when the text it reads is empty
    (the file is empty, or reading it failed and left the empty string),
    and it does so as a value: the function is total and raises nothing.
    On a non-empty text it returns the dict of the three checks on that
    text and their sum, under exactly the four keys.  The result is [None]
    only for the empty text, so a document whose three checks are all 0
    gets a dict with [total_score] 0 and is told apart from an empty one. *)
Theorem analyze_report_empty_or_scored `{Unicode} (d : disk) (txt_path : str) :
  (d txt_path = None \/ d txt_path = Some [] -> analyze_report d txt_path = None) /\
  (forall text, d txt_path = Some text -> text <> [] ->
     analyze_report d txt_path
     = Some {[ "standards_score" := check_standards_compliance text;
               "assurance_score" := check_third_party_assurance text;
               "metrics_score" := check_quantitative_metrics text;
               "total_score" :=
                 (check_standards_compliance text
                  + check_third_party_assurance text
                  + check_quantitative_metrics text)%Z ]}) /\
  (forall text scores, d txt_path = Some text -> text <> [] ->
     analyze_report d txt_path = Some scores ->
     dom scores = {[ "standards_score"; "assurance_score"; "metrics_score";
                     "total_score" ]}) /\
  (analyze_report d txt_path = None <-> extract_text_from_txt d txt_path = []) /\
  (forall text, d txt_path = Some text -> text <> [] ->
     check_standards_compliance text = 0%Z ->
     check_third_party_assurance text = 0%Z ->
     check_quantitative_metrics text = 0%Z ->
     exists scores,
       analyze_report d txt_path = Some scores /\
       scores !! "total_score" = Some 0%Z).
Proof.
  rewrite analyze_report_text. unfold extract_text_from_txt.
  split; [|split; [|split; [|split]]].
  - intros [-> | ->]; reflexivity.
  - intros text -> N. destruct text; [congruence | reflexivity].
  - intros text scores -> N E. destruct text; [congruence|].
    injection E as <-. unfold scores_of. rewrite !dom_insert_L, dom_singleton_L.
    set_solver.
  - destruct (d txt_path) as [[|c text]|]; split; intros; congruence.
  - intros text -> N S A M. destruct text as [|c text]; [congruence|].
    eexists. split; [reflexivity|]. unfold scores_of. rewrite S, A, M.
    now simplify_map_eq.
Qed.

Lemma analyze_report_empty_or_scored_witness :
  @analyze_report Unicode_ascii (fun _ => Some []) (u "600000-2020-SampleCorp.txt")
  = None.
Proof.
  apply (proj1 (@analyze_report_empty_or_scored Unicode_ascii (fun _ => Some [])
                  (u "600000-2020-SampleCorp.txt"))).
  right. reflexivity.
Defined.

(** C3.  [check_quantitative_metrics] returns 1 on every text that holds,
    for a unit of the unit list, a run of digits, optionally a point and
    more digits, then white space (possibly none), then the unit itself,
    character for character.  Digits and white space are what [\d] and
    [\s] match; with the ASCII digits among them, "排放量120吨" scores 1. *)
Theorem number_with_unit_scores `{Unicode} :
  (forall unit a ds frac sp b,
     unit ∈ quantitative_units ->
     digit_run ds ->
     (frac = [] \/ exists fs, frac = 46%N :: fs /\ digit_run fs) ->
     Lang.all_in Re.Space sp = true ->
     check_quantitative_metrics (a ++ ds ++ frac ++ sp ++ unit ++ b) = 1%Z) /\
  (DigitLaws -> check_quantitative_metrics (u "排放量120吨") = 1%Z).
Proof.
  assert (G : forall unit a ds frac sp b,
     unit ∈ quantitative_units ->
     digit_run ds ->
     (frac = [] \/ exists fs, frac = 46%N :: fs /\ digit_run fs) ->
     Lang.all_in Re.Space sp = true ->
     check_quantitative_metrics (a ++ ds ++ frac ++ sp ++ unit ++ b) = 1%Z).
  { intros unit a ds frac sp b Hu Hd Hf Hs.
    apply check_quantitative_metrics_one. left. exists unit. split; [exact Hu|].
    exists a, (ds ++ frac ++ sp ++ unit), b. split.
    - now rewrite <- !app_assoc.
    - exists ds, frac, sp. auto. }
  split; [exact G|]. intros D.
  apply (G (u "吨") (u "排放量") (u "120") [] [] []).
  - vm_compute. left.
  - split; [discriminate|]. unfold Lang.all_in.
    change (u "120") with [49; 50; 48]%N. cbn [forallb].
    rewrite !ascii_digit_mem by lia. reflexivity.
  - now left.
  - reflexivity.
Qed.

Lemma number_with_unit_scores_witness :
  @DigitLaws Unicode_ascii /\
  @check_quantitative_metrics Unicode_ascii (u "排放量120吨") = 1%Z /\
  @check_quantitative_metrics Unicode_ascii (u "up 12.5  % on 2022") = 1%Z.
Proof.
  split; [exact Unicode_ascii_digits|]. split.
  - apply (proj2 (@number_with_unit_scores Unicode_ascii) Unicode_ascii_digits).
  - apply (proj1 (@number_with_unit_scores Unicode_ascii)
             (u "%") (u "up ") (u "12") (u ".5") (u "  ") (u " on 2022")).
    + vm_compute. right. left.
    + split; [discriminate | reflexivity].
    + right. exists (u "5"). split; [reflexivity|].
      split; [discriminate | reflexivity].
    + reflexivity.
Defined.

(** C4.  [check_quantitative_metrics] returns 1 on every text in which a
    KPI phrase stands at the very start or right after a line feed (the
    text "KPI", line feed, "核心指标" scores 1 with no number in it), and 0
    on every text that holds no number with a unit and no KPI phrase in
    such a position: a phrase in the middle of a line does not count
    ("see KPI below" scores 0), and "no numbers or keywords here"
    scores 0. *)
Theorem kpi_heading_scores `{Unicode} :
  (forall keyword text,
     keyword ∈ kpi_keywords ->
     (exists b, text = keyword ++ b) \/
     (exists a b, text = a ++ LF :: keyword ++ b) ->
     check_quantitative_metrics text = 1%Z) /\
  (forall text,
     (forall unit, unit ∈ quantitative_units -> ~ number_unit_occurs unit text) ->
     (forall keyword, keyword ∈ kpi_keywords -> ~ heading_occurs keyword text) ->
     check_quantitative_metrics text = 0%Z) /\
  check_quantitative_metrics (u "KPI" ++ LF :: u "核心指标") = 1%Z /\
  check_quantitative_metrics (u "see KPI below") = 0%Z /\
  check_quantitative_metrics (u "no numbers or keywords here") = 0%Z.
Proof.
  split; [|split; [|split; [|split]]].
  - intros keyword text Hk O.
    apply check_quantitative_metrics_one. right. exists keyword. auto.
  - intros text U K. apply check_quantitative_metrics_zero.
    intros [(x & Hx & O) | (x & Hx & O)]; [apply (U x) | apply (K x)]; auto.
  - apply check_quantitative_metrics_one. right. exists (u "KPI"). split.
    + vm_compute. do 7 right. left.
    + left. now exists (LF :: u "核心指标").
  - apply metrics_zero_test; vm_compute; reflexivity.
  - apply metrics_zero_test; vm_compute; reflexivity.
Qed.

Lemma kpi_heading_scores_witness :
  @check_quantitative_metrics Unicode_ascii (u "前言" ++ LF :: u "核心指标" ++ u "一览") = 1%Z.
Proof.
  apply (proj1 (@kpi_heading_scores Unicode_ascii) (u "核心指标")).
  - vm_compute. do 6 right. left.
  - right. exists (u "前言"), (u "一览"). reflexivity.
Defined.

(** C5.  For every non-empty text, [analyze_report] returns a dict whose
    [total_score] is the sum of its three sub-scores; each sub-score is 0
    or 1 and the total is one of 0, 1, 2, 3. *)
Theorem total_score_is_sum `{Unicode} (d : disk) (txt_path text : str) :
  d txt_path = Some text -> text <> [] ->
  exists scores s a m t,
    analyze_report d txt_path = Some scores /\
    scores !! "standards_score" = Some s /\
    scores !! "assurance_score" = Some a /\
    scores !! "metrics_score" = Some m /\
    scores !! "total_score" = Some t /\
    t = (s + a + m)%Z /\
    (s = 0 \/ s = 1)%Z /\ (a = 0 \/ a = 1)%Z /\ (m = 0 \/ m = 1)%Z /\
    (t = 0 \/ t = 1 \/ t = 2 \/ t = 3)%Z.
Proof.
  intros E N. rewrite analyze_report_text. unfold extract_text_from_txt. rewrite E.
  destruct text as [|c text]; [congruence|].
  exists (scores_of (c :: text)), (check_standards_compliance (c :: text)),
    (check_third_party_assurance (c :: text)),
    (check_quantitative_metrics (c :: text)),
    (check_standards_compliance (c :: text)
     + check_third_party_assurance (c :: text)
     + check_quantitative_metrics (c :: text))%Z.
  pose proof (any_keyword_range standards_keywords (str_lower (c :: text))) as S.
  pose proof (any_keyword_range assurance_keywords (str_lower (c :: text))) as A.
  pose proof (check_quantitative_metrics_range (c :: text)) as M.
  fold (check_standards_compliance (c :: text)) in S.
  fold (check_third_party_assurance (c :: text)) in A.
  unfold scores_of.
  repeat split; try (now simplify_map_eq); try tauto; lia.
Qed.

Lemma total_score_is_sum_witness :
  exists scores s a m t,
    @analyze_report Unicode_ascii (fun _ => Some (u "GRI 120吨")) (u "a.txt")
    = Some scores /\
    scores !! "standards_score" = Some s /\
    scores !! "assurance_score" = Some a /\
    scores !! "metrics_score" = Some m /\
    scores !! "total_score" = Some t /\
    t = (s + a + m)%Z /\
    (s = 0 \/ s = 1)%Z /\ (a = 0 \/ a = 1)%Z /\ (m = 0 \/ m = 1)%Z /\
    (t = 0 \/ t = 1 \/ t = 2 \/ t = 3)%Z.
Proof.
  apply (@total_score_is_sum Unicode_ascii (fun _ => Some (u "GRI 120吨"))
           (u "a.txt") (u "GRI 120吨")); [reflexivity | discriminate].
Defined.

(** C6, as stated, fails: a file name that goes on after [".txt"] does
    not have the fixed shape, and yet it is parsed. *)
Lemma trailing_extension_is_parsed :
  ~ @fixed_shape Unicode_ascii (u "600000-2020-SampleCorp.txt.bak") /\
  @parse_filename Unicode_ascii (u "600000-2020-SampleCorp.txt.bak")
  = Returned (Some (u "600000"), Some 2020%Z, Some (u "SampleCorp")).
Proof.
  split.
  - intros S. apply fixed_shape_suffix in S. vm_compute in S. discriminate.
  - vm_compute. reflexivity.
Qed.

(** C6, amended.  On a file name that is [<6 digits>-<4 digits>-<name>.txt],
    where [name] holds no line feed and no [".txt"] of its own,
    [parse_filename] returns the code as a string, the year as an integer
    and the name; with the ASCII digits, "600000-2020-SampleCorp.txt" gives
    "600000", 2020 and "SampleCorp".  It returns [(None, None, None)]
    exactly on the file names that do not begin with six digits, a hyphen,
    four digits, a hyphen, characters other than line feeds and [".txt"]
    (a name with the year missing is one of them); whatever follows that
    [".txt"] does not matter.  It never raises. *)
Theorem filename_parsed_or_absent `{Unicode} :
  (forall code yr name,
     digits 6 code -> digits 4 yr -> one_line name -> shortest_name name [] ->
     exists y,
       digits_value 0 yr = Some y /\
       parse_filename (code ++ dash :: yr ++ dash :: name ++ u ".txt")
       = Returned (Some code, Some y, Some name)) /\
  (forall filename,
     parse_filename filename = Returned (None, None, None) <->
     ~ exists code yr name tail,
         filename = code ++ dash :: yr ++ dash :: name ++ u ".txt" ++ tail /\
         digits 6 code /\ digits 4 yr /\ one_line name) /\
  (forall filename, exists r, parse_filename filename = Returned r) /\
  parse_filename (u "600000-SampleCorp.txt") = Returned (None, None, None) /\
  (DigitLaws ->
     parse_filename (u "600000-2020-SampleCorp.txt")
     = Returned (Some (u "600000"), Some 2020%Z, Some (u "SampleCorp"))).
Proof.
  split; [|split; [|split; [|split]]].
  - intros code yr name Dc Dy Ln M.
    destruct (parse_filename_shape code yr name [] Dc Dy Ln M) as (y & V & P).
    exists y. split; [exact V|]. unfold dot_txt in P.
    now rewrite app_nil_r in P.
  - apply parse_filename_absent.
  - apply parse_filename_returns.
  - apply parse_filename_absent. intros S.
    apply prefix_shape_dashes in S as [_ S]. vm_compute in S. discriminate.
  - intros D.
    apply (parse_filename_ascii (u "600000") (u "2020") (u "SampleCorp") []);
      vm_compute; reflexivity.
Qed.

Lemma filename_parsed_or_absent_witness :
  @DigitLaws Unicode_ascii /\
  @parse_filename Unicode_ascii (u "600000-2020-SampleCorp.txt")
  = Returned (Some (u "600000"), Some 2020%Z, Some (u "SampleCorp")).
Proof.
  split; [exact Unicode_ascii_digits|].
  apply (proj2 (proj2 (proj2 (proj2
           (@filename_parsed_or_absent Unicode_ascii))))
           Unicode_ascii_digits).
Defined.

(** C7.  The batch driver scores a file exactly when its parsed year [y]
    satisfies 2015 <= y <= 2023.  A file with any other parsed year is not
    scored: the turn of the loop adds no row and records the file with
    the year-out-of-range reason, and over the whole batch a file is so
    recorded exactly when its year is outside the range, while every row
    holds a year of the range.  Of the years 2014, 2015, 2023, 2024 only
    2015 and 2023 pass. *)
Theorem year_filter `{Unicode} (d : disk) :
  (forall acc txt_file code y name,
     parse_filename txt_file = Returned (code, Some y, name) ->
     ((2015 <= y <= 2023)%Z <->
        main_step d acc txt_file = scored d acc txt_file code (Some y) name) /\
     (~ (2015 <= y <= 2023)%Z <->
        main_step d acc txt_file = filtered_out acc txt_file)) /\
  (forall txt_files txt_file code y name,
     txt_file ∈ txt_files ->
     parse_filename txt_file = Returned (code, Some y, name) ->
     (filtered (main_loop d txt_files) txt_file <-> ~ (2015 <= y <= 2023)%Z)) /\
  (forall txt_files, rows_in_range (main_loop d txt_files)) /\
  year_in_range (Some 2014%Z) = false /\
  year_in_range (Some 2015%Z) = true /\
  year_in_range (Some 2023%Z) = true /\
  year_in_range (Some 2024%Z) = false.
Proof.
  split; [|split; [|split]].
  - intros acc txt_file code y name P.
    rewrite (main_step_parsed d acc txt_file code (Some y) name P).
    pose proof (year_in_range_spec y) as R.
    pose proof (scored_not_filtered d acc txt_file code (Some y) name) as N.
    destruct (year_in_range (Some y)).
    + assert (I : (2015 <= y <= 2023)%Z) by now apply R.
      split; [tauto|]. split; [tauto|]. intros E. now apply N in E.
    + assert (O : ~ (2015 <= y <= 2023)%Z) by (intros T; apply R in T; discriminate).
      split; [|tauto]. split; [tauto|]. intros E. symmetry in E. now apply N in E.
  - intros txt_files txt_file code y name Hf P. unfold main_loop.
    rewrite fold_filtered. rewrite <- year_in_range_spec. split.
    + intros [E | (_ & c & yr & n & P' & R)]; [inversion E|].
      rewrite P in P'. injection P' as <- <- <-. congruence.
    + intros R. right. split; [exact Hf|]. exists code, (Some y), name.
      split; [exact P|]. now destruct (year_in_range (Some y)).
  - intros txt_files. apply fold_rows. intros row E. inversion E.
  - repeat split; reflexivity.
Qed.

Lemma year_filter_witness :
  let d : disk := fun _ => Some (u "GRI 120吨") in
  @main_step Unicode_ascii d (Tables [] []) (u "600000-2014-SampleCorp.txt")
  = filtered_out (Tables [] []) (u "600000-2014-SampleCorp.txt").
Proof.
  intros d.
  apply (proj1 (@year_filter Unicode_ascii d) (Tables [] [])
           (u "600000-2014-SampleCorp.txt")
           (Some (u "600000")) 2014%Z (Some (u "SampleCorp"))).
  - vm_compute. reflexivity.
  - lia.
Defined.

(** C8, as stated, fails: adding a standards keyword in front of a text
    that opens with a KPI heading takes the heading off the start of the
    line, and the metrics score drops from 1 to 0. *)
Lemma keyword_in_front_lowers_metrics :
  u "GRI" ∈ standards_keywords /\
  @check_quantitative_metrics Unicode_ascii (u "KPI") = 1%Z /\
  @check_quantitative_metrics Unicode_ascii (u "GRI" ++ u "KPI") = 0%Z /\
  ~ (@check_quantitative_metrics Unicode_ascii (u "KPI")
     <= @check_quantitative_metrics Unicode_ascii (u "GRI" ++ u "KPI"))%Z.
Proof.
  assert (E1 : @check_quantitative_metrics Unicode_ascii (u "KPI") = 1%Z)
    by (vm_compute; reflexivity).
  assert (E0 : @check_quantitative_metrics Unicode_ascii (u "GRI" ++ u "KPI") = 0%Z)
    by (vm_compute; reflexivity).
  split; [vm_compute; left|]. split; [exact E1|]. split; [exact E0|].
  rewrite E1, E0. lia.
Qed.

(** C8, amended.  No check returns anything but 0 or 1.  Each score is
    monotonic in the matches of its category: a text that has every match
    another text has scores at least as much.  A number with a unit, or a
    KPI phrase at the start of a line, added anywhere in a text makes the
    metrics score 1, and text added at the end of a text does not lower
    it.  With [str.lower] acting on plain characters as it does, a keyword
    (in any case) added anywhere makes the score of its list 1, and text
    added at the end lowers neither keyword score. *)
Theorem scoring_monotonic `{Unicode} :
  (forall text,
     (check_standards_compliance text = 0 \/ check_standards_compliance text = 1)%Z /\
     (check_third_party_assurance text = 0 \/ check_third_party_assurance text = 1)%Z /\
     (check_quantitative_metrics text = 0 \/ check_quantitative_metrics text = 1)%Z) /\
  (forall t t',
     ((forall k, k ∈ standards_keywords ->
         substring_of (str_lower k) (str_lower t) ->
         substring_of (str_lower k) (str_lower t')) ->
      (check_standards_compliance t <= check_standards_compliance t')%Z) /\
     ((forall k, k ∈ assurance_keywords ->
         substring_of (str_lower k) (str_lower t) ->
         substring_of (str_lower k) (str_lower t')) ->
      (check_third_party_assurance t <= check_third_party_assurance t')%Z) /\
     ((forall unit, unit ∈ quantitative_units ->
         number_unit_occurs unit t -> number_unit_occurs unit t') ->
      (forall keyword, keyword ∈ kpi_keywords ->
         heading_occurs keyword t -> heading_occurs keyword t') ->
      (check_quantitative_metrics t <= check_quantitative_metrics t')%Z)) /\
  (forall a m b,
     ((exists unit, unit ∈ quantitative_units /\ number_unit unit m) ->
      check_quantitative_metrics (a ++ m ++ b) = 1%Z) /\
     (m ∈ kpi_keywords ->
      check_quantitative_metrics (a ++ LF :: m ++ b) = 1%Z /\
      check_quantitative_metrics (m ++ b) = 1%Z)) /\
  (forall text more,
     (check_quantitative_metrics text
      <= check_quantitative_metrics (text ++ more))%Z) /\
  (LowerLaws ->
     (forall a m b,
        (keyword_variant standards_keywords m ->
         check_standards_compliance (a ++ m ++ b) = 1%Z) /\
        (keyword_variant assurance_keywords m ->
         check_third_party_assurance (a ++ m ++ b) = 1%Z)) /\
     (forall text more,
        (check_standards_compliance text
         <= check_standards_compliance (text ++ more))%Z /\
        (check_third_party_assurance text
         <= check_third_party_assurance (text ++ more))%Z)).
Proof.
  split; [|split; [|split; [|split]]].
  - intros text. repeat split.
    + apply any_keyword_range.
    + apply any_keyword_range.
    + apply check_quantitative_metrics_range.
  - intros t t'. repeat split.
    + apply any_keyword_mono.
    + apply any_keyword_mono.
    + intros U K. apply check_quantitative_metrics_mono.
      intros [(x & Hx & O) | (x & Hx & O)]; [left | right]; exists x; auto.
  - intros a m b. repeat split.
    + intros (unit & Hu & N). apply check_quantitative_metrics_one. left.
      exists unit. split; [exact Hu|]. now exists a, m, b.
    + apply check_quantitative_metrics_one. right. exists m.
      split; [assumption|]. right. now exists a, b.
    + apply check_quantitative_metrics_one. right. exists m.
      split; [assumption|]. left. now exists b.
  - intros text more. apply check_quantitative_metrics_mono.
    intros [(x & Hx & O) | (x & Hx & O)]; [left | right]; exists x;
      (split; [exact Hx|]).
    + now apply number_unit_occurs_append.
    + now apply heading_occurs_append.
  - intros L. split.
    + intros a m b. split.
      * apply any_keyword_variant. vm_compute. reflexivity.
      * apply any_keyword_variant. vm_compute. reflexivity.
    + intros text more. split.
      * apply any_keyword_append. vm_compute. reflexivity.
      * apply any_keyword_append. vm_compute. reflexivity.
Qed.

Lemma scoring_monotonic_witness :
  @LowerLaws Unicode_ascii /\
  @check_standards_compliance Unicode_ascii
    (u "our " ++ u "gri" ++ u " index") = 1%Z /\
  @check_quantitative_metrics Unicode_ascii
    (u "summary" ++ LF :: u "KPI" ++ u " table") = 1%Z.
Proof.
  split; [exact Unicode_ascii_lower|]. split.
  - apply (proj1 (proj1 (proj2 (proj2 (proj2 (proj2
             (@scoring_monotonic Unicode_ascii)))) Unicode_ascii_lower)
             (u "our ") (u "gri") (u " index"))).
    split; [reflexivity|]. exists (u "GRI"). split; [left | reflexivity].
  - apply (proj2 (proj1 (proj2 (proj2 (@scoring_monotonic Unicode_ascii)))
             (u "summary") (u "KPI") (u " table"))).
    vm_compute. do 7 right. left.
Defined.

(** C9.  The KPI heading rule is case-sensitive, unlike the two keyword
    checks, whose result depends on the text only through its lower-cased
    form.  A text that is the lower-case variant of a KPI phrase, such as
    "kpi", holds no number with a unit and scores 0, while the phrase in
    its own case in the same place scores 1. *)
Theorem kpi_heading_case_sensitive `{Unicode} :
  check_quantitative_metrics (u "kpi") = 0%Z /\
  check_quantitative_metrics (u "KPI") = 1%Z /\
  (forall keyword,
     keyword ∈ kpi_keywords ->
     check_quantitative_metrics keyword = 1%Z /\
     (map ascii_lower keyword <> keyword ->
      (forall unit, unit ∈ quantitative_units ->
         ~ number_unit_occurs unit (map ascii_lower keyword)) /\
      check_quantitative_metrics (map ascii_lower keyword) = 0%Z)) /\
  (forall t1 t2,
     str_lower t1 = str_lower t2 ->
     check_standards_compliance t1 = check_standards_compliance t2 /\
     check_third_party_assurance t1 = check_third_party_assurance t2).
Proof.
  split; [|split; [|split]].
  - apply metrics_zero_test; vm_compute; reflexivity.
  - apply check_quantitative_metrics_one. right. exists (u "KPI"). split.
    + vm_compute. do 7 right. left.
    + left. exists []. now rewrite app_nil_r.
  - intros keyword Hk. split.
    + apply check_quantitative_metrics_one. right. exists keyword.
      split; [exact Hk|]. left. exists []. now rewrite app_nil_r.
    + intros V.
      assert (T : no_unit_in (map ascii_lower keyword) = true /\
                  no_heading_in (map ascii_lower keyword) = true).
      { unfold kpi_keywords in Hk.
        repeat (apply elem_of_cons in Hk as [-> | Hk]);
          try (exfalso; apply V; vm_compute; reflexivity);
          try (split; vm_compute; reflexivity).
        inversion Hk. }
      destruct T as [T1 T2]. split.
      * intros unit Hu O. apply number_unit_occurs_unit in O.
        unfold no_unit_in in T1. rewrite forallb_forall in T1.
        apply list_elem_of_In, T1 in Hu. rewrite O in Hu. discriminate.
      * now apply metrics_zero_test.
  - intros t1 t2 E. unfold check_standards_compliance, check_third_party_assurance.
    now rewrite E.
Qed.

Lemma kpi_heading_case_sensitive_witness :
  @check_standards_compliance Unicode_ascii (u "gri")
  = @check_standards_compliance Unicode_ascii (u "GRI") /\
  @check_quantitative_metrics Unicode_ascii (u "esg 数据") = 0%Z.
Proof.
  split.
  - apply (proj2 (proj2 (proj2 (@kpi_heading_case_sensitive Unicode_ascii)))
             (u "gri") (u "GRI")).
    reflexivity.
  - apply (proj1 (proj2 (proj2 (@kpi_heading_case_sensitive Unicode_ascii)))
             (u "ESG 数据")).
    + vm_compute. do 4 right. left.
    + vm_compute. discriminate.
Defined.

(** C10, as stated, fails: the characters before [".txt"] cannot be any
    characters, since [.] does not match a line feed. *)
Lemma line_feed_in_name_is_not_parsed :
  let filename := u "600000-2020-Sample" ++ LF :: u "Corp.txt" in
  (exists name, filename = u "600000-2020-" ++ name ++ u ".txt") /\
  @parse_filename Unicode_ascii filename = Returned (None, None, None).
Proof.
  split.
  - exists (u "Sample" ++ LF :: u "Corp"). vm_compute. reflexivity.
  - vm_compute. reflexivity.
Qed.

(** C10, amended.  The pattern is matched against the beginning of the
    file name only.  On every file name that begins with six digits, a
    hyphen, four digits, a hyphen, characters other than line feeds and
    [".txt"], [parse_filename] returns the triple, whatever follows the
    [".txt"]; the name it returns is the shortest span that [".txt"]
    follows, so it ends at the first [".txt"]. *)
Theorem parse_filename_prefix_only `{Unicode} :
  (forall code yr name tail,
     digits 6 code -> digits 4 yr -> one_line name ->
     exists y name' tail',
       parse_filename (code ++ dash :: yr ++ dash :: name ++ u ".txt" ++ tail)
       = Returned (Some code, Some y, Some name') /\
       digits_value 0 yr = Some y /\
       name ++ u ".txt" ++ tail = name' ++ u ".txt" ++ tail' /\
       (forall n b, name ++ u ".txt" ++ tail = n ++ u ".txt" ++ b ->
          length name' <= length n)) /\
  (DigitLaws ->
     parse_filename (u "600000-2020-SampleCorp.txt.bak")
     = Returned (Some (u "600000"), Some 2020%Z, Some (u "SampleCorp")) /\
     parse_filename (u "600000-2020-Sample.txt.Corp.txt")
     = Returned (Some (u "600000"), Some 2020%Z, Some (u "Sample"))).
Proof.
  split.
  - intros code yr name tail Dc Dy Ln.
    destruct (shortest_name_exists name tail Ln) as (name' & tail' & E & Ln' & M).
    destruct (parse_filename_shape code yr name' tail' Dc Dy Ln' M) as (y & V & P).
    fold dot_txt. exists y, name', tail'. rewrite E. repeat split; auto.
  - intros D. split.
    + apply (parse_filename_ascii (u "600000") (u "2020") (u "SampleCorp") (u ".bak"));
        vm_compute; reflexivity.
    + apply (parse_filename_ascii (u "600000") (u "2020") (u "Sample") (u ".Corp.txt"));
        vm_compute; reflexivity.
Qed.

Lemma parse_filename_prefix_only_witness :
  @DigitLaws Unicode_ascii /\
  @parse_filename Unicode_ascii (u "600000-2020-SampleCorp.txt.bak")
  = Returned (Some (u "600000"), Some 2020%Z, Some (u "SampleCorp")).
Proof.
  split; [exact Unicode_ascii_digits|].
  apply (proj2 (@parse_filename_prefix_only Unicode_ascii) Unicode_ascii_digits).
Defined.

(** * Further properties *)

(** X1.  Every file of the batch leaves exactly one record: the rows and
    the failure records together are as many as the files. *)
Theorem one_record_per_file `{Unicode} (d : disk) (txt_files : list str) :
  length (results (main_loop d txt_files))
  + length (failed_files (main_loop d txt_files))
  = length txt_files.
Proof.
  rewrite main_loop_records. cbn [results failed_files].
  induction txt_files as [|f fs IH]; [reflexivity|].
  cbn [omap list_omap length]. unfold row_of at 1, failure_of at 1.
  destruct (record_of d f); cbn [length]; lia.
Qed.

(** X2.  Files are processed independently and in order: the tables of a
    batch made of two batches are the tables of the first followed by
    those of the second, and the failure records name files of the batch
    in the order of the batch. *)
Theorem batches_compose `{Unicode} (d : disk) (files1 files2 : list str) :
  results (main_loop d (files1 ++ files2))
  = results (main_loop d files1) ++ results (main_loop d files2) /\
  failed_files (main_loop d (files1 ++ files2))
  = failed_files (main_loop d files1) ++ failed_files (main_loop d files2) /\
  map file (failed_files (main_loop d files1)) `sublist_of` files1.
Proof.
  rewrite !main_loop_records. cbn [results failed_files].
  rewrite !omap_app. repeat split. apply failures_sublist.
Qed.

(** X3.  The failure records are exactly these: a file whose name gives
    no year of the range, with the year-out-of-range reason, and a file
    with a year of the range whose text is empty, with the analysis-failed
    reason.  The reason of the [except] branch never occurs. *)
Theorem failures_classified `{Unicode} (d : disk) (txt_files : list str)
    (failure : failed_file) :
  (failure ∈ failed_files (main_loop d txt_files) <->
   exists f code yr name,
     f ∈ txt_files /\ parse_filename f = Returned (code, yr, name) /\
     ((year_in_range yr = false /\
       failure = FailedFile f year_out_of_range) \/
      (year_in_range yr = true /\ extract_text_from_txt d f = [] /\
       failure = FailedFile f analysis_failed))) /\
  (failure ∈ failed_files (main_loop d txt_files) ->
   forall e, reason failure <> processing_error e).
Proof.
  rewrite main_loop_records. cbn [failed_files].
  assert (C : failure ∈ omap (failure_of d) txt_files <->
    exists f code yr name,
      f ∈ txt_files /\ parse_filename f = Returned (code, yr, name) /\
      ((year_in_range yr = false /\
        failure = FailedFile f year_out_of_range) \/
       (year_in_range yr = true /\ extract_text_from_txt d f = [] /\
        failure = FailedFile f analysis_failed))).
  { rewrite elem_of_failures. split.
    - intros (f & Hf & E).
      destruct (FilenameFacts.parse_filename_returns f) as ([[code yr] name] & P).
      rewrite (record_of_parsed d f code yr name P) in E.
      exists f, code, yr, name. split; [exact Hf|]. split; [exact P|].
      destruct (year_in_range yr); [right | left; split; congruence].
      destruct (extract_text_from_txt d f); [|discriminate].
      repeat split; congruence.
    - intros (f & code & yr & name & Hf & P & [[R ->] | (R & T & ->)]);
        exists f; (split; [exact Hf|]);
        rewrite (record_of_parsed d f code yr name P), R; [reflexivity|].
      now rewrite T. }
  split; [exact C|].
  intros F e E. apply C in F as (f & code & yr & name & _ & _ & D).
  destruct failure as [file0 reason0]. cbn [reason] in E. subst reason0.
  destruct D as [[_ D] | (_ & _ & D)]; apply failed_file_reason in D.
  - now apply processing_error_not_year in D.
  - now apply processing_error_not_failed in D.
Qed.

Lemma failures_classified_witness :
  let d : disk := fun _ => Some [] in
  FailedFile (u "600000-2020-A.txt") analysis_failed
  ∈ failed_files (@main_loop Unicode_ascii d [u "600000-2020-A.txt"]).
Proof.
  intros d.
  apply (proj1 (@failures_classified Unicode_ascii d [u "600000-2020-A.txt"]
                  (FailedFile (u "600000-2020-A.txt") analysis_failed))).
  exists (u "600000-2020-A.txt"), (Some (u "600000")), (Some 2020%Z), (Some (u "A")).
  split; [left|]. split; [vm_compute; reflexivity|].
  right. repeat split.
Defined.

(** X4.  A file whose name does not parse is not skipped: it is recorded
    as a failure, with the year-out-of-range reason, and it gives no
    row. *)
Theorem unparsed_name_is_recorded `{Unicode} (d : disk) (txt_files : list str)
    (txt_file : str) :
  txt_file ∈ txt_files ->
  parse_filename txt_file = Returned (None, None, None) ->
  FailedFile txt_file year_out_of_range ∈ failed_files (main_loop d txt_files) /\
  row_of d txt_file = None.
Proof.
  intros Hf P. rewrite main_loop_records. cbn [failed_files].
  pose proof (record_of_parsed d txt_file None None None P) as E.
  cbn [year_in_range] in E.
  split.
  - apply elem_of_failures. now exists txt_file.
  - unfold row_of. now rewrite E.
Qed.

Lemma unparsed_name_is_recorded_witness :
  let d : disk := fun _ => Some (u "GRI") in
  FailedFile (u "notes.txt") year_out_of_range
  ∈ failed_files (@main_loop Unicode_ascii d [u "notes.txt"]).
Proof.
  intros d.
  apply (@unparsed_name_is_recorded Unicode_ascii d [u "notes.txt"] (u "notes.txt")).
  - left.
  - vm_compute. reflexivity.
Defined.

(** X5.  The rows are exactly the scores of the files that have a name of
    the shape, a year from 2015 to 2023 and a non-empty text: each row
    holds the code, the name and the year parsed from the file name, the
    three checks on the text of that file, and their sum. *)
Theorem rows_come_from_files `{Unicode} (d : disk) (txt_files : list str)
    (row : result_row) :
  row ∈ results (main_loop d txt_files) <->
  exists f code y name c text,
    f ∈ txt_files /\
    parse_filename f = Returned (Some code, Some y, Some name) /\
    (2015 <= y <= 2023)%Z /\
    extract_text_from_txt d f = c :: text /\
    row = ResultRow (Some code) (Some name) (Some y)
            (check_standards_compliance (c :: text))
            (check_third_party_assurance (c :: text))
            (check_quantitative_metrics (c :: text))
            (check_standards_compliance (c :: text)
             + check_third_party_assurance (c :: text)
             + check_quantitative_metrics (c :: text)).
Proof.
  rewrite main_loop_records. cbn [results]. rewrite elem_of_rows. split.
  - intros (f & Hf & E).
    destruct (parse_filename_cases f) as [P | (code & yr & name & tail & y & P & _)];
      [rewrite (record_of_parsed d f _ _ _ P) in E; discriminate|].
    rewrite (record_of_parsed d f _ _ _ P) in E.
    destruct (year_in_range (Some y)) eqn:R; [|discriminate].
    apply year_in_range_spec in R.
    destruct (extract_text_from_txt d f) as [|c text] eqn:T; [discriminate|].
    injection E as <-. exists f, code, y, name, c, text. auto.
  - intros (f & code & y & name & c & text & Hf & P & R & T & ->).
    exists f. split; [exact Hf|].
    rewrite (record_of_parsed d f _ _ _ P), T.
    apply year_in_range_spec in R. now rewrite R.
Qed.

Lemma rows_come_from_files_witness :
  let d : disk := fun _ => Some (u "KPI") in
  exists row, row ∈ results (@main_loop Unicode_ascii d [u "600000-2020-A.txt"]) /\
    stock_code row = Some (u "600000") /\ year row = Some 2020%Z.
Proof.
  intros d. eexists. split.
  - apply (proj2 (@rows_come_from_files Unicode_ascii d [u "600000-2020-A.txt"] _)).
    exists (u "600000-2020-A.txt"), (u "600000"), 2020%Z, (u "A"), 75%N, (u "PI").
    split; [left|]. split; [vm_compute; reflexivity|]. split; [lia|].
    split; reflexivity.
  - split; reflexivity.
Defined.

(** X6.  The panel table is written only when there is a row; the rows
    written are the rows of the loop in another order, such that every
    row comes before all rows with a greater stock code and before all
    rows with the same stock code and a greater year. *)
Theorem written_rows_sorted (t : tables) :
  (written_results t = None <-> results t = []) /\
  (forall rows, written_results t = Some rows ->
     rows ≡ₚ results t /\
     StronglySorted (fun r1 r2 => row_le r1 r2 = true) rows).
Proof.
  unfold written_results. split.
  - destruct (results t); split; congruence.
  - intros rows E. destruct (results t) as [|r rs] eqn:R; [discriminate|].
    injection E as <-. unfold sort_values. split.
    + apply merge_sort_Permutation.
    + apply (StronglySorted_weaken (fun r1 r2 : result_row => row_le r1 r2)).
      * intros r1 r2. apply Is_true_true.
      * apply (StronglySorted_merge_sort (fun r1 r2 : result_row => row_le r1 r2)).
Qed.

Lemma written_rows_sorted_witness :
  let t := Tables [ResultRow (Some (u "600001")) (Some (u "B")) (Some 2020%Z) 0 0 0 0;
                   ResultRow (Some (u "600000")) (Some (u "A")) (Some 2021%Z) 1 0 0 1;
                   ResultRow (Some (u "600000")) (Some (u "A")) (Some 2020%Z) 0 0 1 1] [] in
  exists rows, written_results t = Some rows /\
    StronglySorted (fun r1 r2 => row_le r1 r2 = true) rows.
Proof.
  intros t. eexists. split; [reflexivity|].
  apply (proj2 (written_rows_sorted t) _ eq_refl).
Defined.

(** X7.  Whatever [parse_filename] returns is all-absent or all-present,
    and in the second case the three parts spell the beginning of the
    file name: the code is six digits, the year is the value of the four
    digits that follow the hyphen and is not negative, and the name holds
    no line feed and no [".txt"]. *)
Theorem parse_filename_all_or_nothing `{Unicode} (filename : str) :
  parse_filename filename = Returned (None, None, None) \/
  exists code yr name tail y,
    parse_filename filename = Returned (Some code, Some y, Some name) /\
    filename = code ++ dash :: yr ++ dash :: name ++ u ".txt" ++ tail /\
    digits 6 code /\ digits 4 yr /\ digits_value 0 yr = Some y /\
    (0 <= y)%Z /\
    (LF ∉ name) /\ ~ substring_of (u ".txt") name.
Proof.
  destruct (parse_filename_cases filename)
    as [P | (code & yr & name & tail & y & P & E & Dc & Dy & V & Ln & M)];
    [now left | right].
  exists code, yr, name, tail, y. repeat split; try assumption.
  - apply Dc.
  - apply Dc.
  - apply Dy.
  - apply Dy.
  - now apply (digits_value_nonneg yr 0%Z).
  - intros I. unfold one_line, Lang.all_in in Ln. rewrite forallb_forall in Ln.
    apply list_elem_of_In, Ln in I. cbn in I. discriminate I.
  - intros (a & b & N). specialize (M a (b ++ dot_txt ++ tail)).
    rewrite N in M at 1. unfold dot_txt in M.
    rewrite <- !app_assoc in M. specialize (M eq_refl).
    rewrite N, !length_app in M. change (length (u ".txt")) with 4 in M. lia.
Qed.

(** X8.  With decimal digits worth 0 to 9, a parsed year lies between 0
    and 9999. *)
Theorem parsed_year_has_four_digits `{Unicode} `{!DigitRange} (filename : str)
    (code : option str) (y : Z) (name : option str) :
  parse_filename filename = Returned (code, Some y, name) ->
  (0 <= y <= 9999)%Z.
Proof.
  intros P.
  destruct (parse_filename_cases filename)
    as [P' | (c & yr & n & tail & y' & P' & _ & _ & [Ly _] & V & _)];
    rewrite P in P'; [discriminate|].
  injection P' as _ <- _. apply digits_value_bound in V. rewrite Ly in V.
  cbn in V. lia.
Qed.

Lemma parsed_year_has_four_digits_witness :
  @DigitRange Unicode_ascii /\ (0 <= 2020 <= 9999)%Z.
Proof.
  split; [exact Unicode_ascii_range|].
  apply (@parsed_year_has_four_digits Unicode_ascii Unicode_ascii_range
           (u "600000-2020-SampleCorp.txt")
           (Some (u "600000")) 2020%Z (Some (u "SampleCorp"))).
  vm_compute. reflexivity.
Defined.

(** X9.  In the number rule the optional fraction changes nothing: the
    pattern finds a match exactly when the text holds one digit, then
    white space (possibly none), then the unit, which is when the shorter
    pattern [\d\s*] followed by the unit finds one.  So the metrics check
    is 1 exactly when some unit follows a digit in this way or some KPI
    phrase starts a line. *)
Theorem fraction_is_immaterial `{Unicode} (text : str) :
  (forall unit,
     (Re.truthy (Re.re_search (number_unit_pattern unit) text) = true <->
      exists a c sp b,
        text = a ++ c :: sp ++ unit ++ b /\
        Re.mem Re.Digit c = true /\ Lang.all_in Re.Space sp = true) /\
     Re.truthy (Re.re_search (number_unit_pattern unit) text)
     = Re.truthy (Re.re_search (digit_unit_pattern unit) text)) /\
  (check_quantitative_metrics text = 1%Z <->
   (exists unit, unit ∈ quantitative_units /\ digit_then_unit unit text) \/
   (exists keyword, keyword ∈ kpi_keywords /\ heading_occurs keyword text)).
Proof.
  split.
  - intros unit. split.
    + rewrite search_number_unit. apply number_unit_occurs_reduced.
    + apply bool_eq_iff.
      rewrite search_number_unit, search_digit_unit.
      apply number_unit_occurs_reduced.
  - rewrite check_quantitative_metrics_one. unfold metrics_match.
    split; (intros [(x & Hx & O) | K]; [left; exists x; split; [exact Hx|] | now right]);
      now apply number_unit_occurs_reduced.
Qed.

(** X10.  In the heading rule the second alternative changes nothing:
    under [re.MULTILINE] the pattern finds a match exactly when [^]
    followed by the phrase alone finds one. *)
Theorem line_feed_alternative_is_immaterial `{Unicode} (keyword text : str) :
  Re.truthy (Re.re_search (kpi_pattern keyword) text)
  = Re.truthy (Re.re_search (line_start_pattern keyword) text).
Proof.
  apply bool_eq_iff. now rewrite search_kpi, search_line_start.
Qed.

(** X11.  A keyword check depends on its list only as a set: the order
    of the keywords and a keyword written twice change nothing.  The
    assurance list holds "第三方鉴证" twice; the check is the same without
    the second copy. *)
Theorem keyword_list_is_a_set `{Unicode} :
  (forall (keywords : list str) text,
     (forall k, k ∈ keywords <-> k ∈ standards_keywords) ->
     any_keyword keywords (str_lower text) = check_standards_compliance text) /\
  (forall (keywords : list str) text,
     (forall k, k ∈ keywords <-> k ∈ assurance_keywords) ->
     any_keyword keywords (str_lower text) = check_third_party_assurance text) /\
  ~ NoDup assurance_keywords /\
  (forall text,
     check_third_party_assurance text
     = any_keyword
         (take 5 assurance_keywords ++ drop 6 assurance_keywords)
         (str_lower text)).
Proof.
  split; [|split; [|split]].
  - intros keywords text S. now apply any_keyword_same_set.
  - intros keywords text S. now apply any_keyword_same_set.
  - intros N. apply NoDup_cons in N as [N _]. apply N.
    vm_compute. do 4 right. left.
  - intros text. apply any_keyword_same_set. intros k.
    change (take 5 assurance_keywords ++ drop 6 assurance_keywords)
      with (take 5 assurance_keywords ++ drop 1 (drop 5 assurance_keywords)).
    rewrite <- (take_drop 5 assurance_keywords) at 1.
    rewrite !elem_of_app.
    change (drop 5 assurance_keywords)
      with (u "第三方鉴证" :: drop 1 (drop 5 assurance_keywords)).
    rewrite elem_of_cons. cbn [drop].
    assert (F : u "第三方鉴证" ∈ take 5 assurance_keywords) by (vm_compute; left).
    split; [intros [? | [-> | ?]]; auto | intros [? | ?]; auto].
Qed.

Lemma keyword_list_is_a_set_witness :
  @any_keyword Unicode_ascii (rev assurance_keywords)
    (@str_lower Unicode_ascii (u "Assured by KPMG"))
  = @check_third_party_assurance Unicode_ascii (u "Assured by KPMG").
Proof.
  apply (proj1 (proj2 (@keyword_list_is_a_set Unicode_ascii))).
  intros k. rewrite !list_elem_of_In. symmetry. apply in_rev.
Defined.

(** X12.  The three signals are independent of one another: with
    [str.lower] acting on plain text as it does, every one of the eight
    triples of 0 and 1 is the triple of scores of some text, so no signal
    follows from the other two and the total takes every value from 0
    to 3. *)
Theorem three_signals_independent `{Unicode} `{!LowerLaws} (s a m : Z) :
  s = 0%Z \/ s = 1%Z -> a = 0%Z \/ a = 1%Z -> m = 0%Z \/ m = 1%Z ->
  exists text,
    check_standards_compliance text = s /\
    check_third_party_assurance text = a /\
    check_quantitative_metrics text = m.
Proof.
  assert (K : forall b, check_quantitative_metrics (u "KPI" ++ b) = 1%Z).
  { intros b. apply check_quantitative_metrics_one. right. exists (u "KPI").
    split; [vm_compute; do 7 right; left | left; now exists b]. }
  intros [-> | ->] [-> | ->] [-> | ->].
  - exists (u "annual report").
    repeat split; [plain_keyword_check | plain_keyword_check |].
    apply metrics_zero_test; vm_compute; reflexivity.
  - exists (u "KPI" ++ u " annual report").
    repeat split; [plain_keyword_check | plain_keyword_check | apply K].
  - exists (u "assured by an auditor").
    repeat split; [plain_keyword_check | plain_keyword_check |].
    apply metrics_zero_test; vm_compute; reflexivity.
  - exists (u "KPI" ++ u " assured by an auditor").
    repeat split; [plain_keyword_check | plain_keyword_check | apply K].
  - exists (u "prepared under GRI").
    repeat split; [plain_keyword_check | plain_keyword_check |].
    apply metrics_zero_test; vm_compute; reflexivity.
  - exists (u "KPI" ++ u " prepared under GRI").
    repeat split; [plain_keyword_check | plain_keyword_check | apply K].
  - exists (u "GRI report, assured by an auditor").
    repeat split; [plain_keyword_check | plain_keyword_check |].
    apply metrics_zero_test; vm_compute; reflexivity.
  - exists (u "KPI" ++ u " GRI report, assured by an auditor").
    repeat split; [plain_keyword_check | plain_keyword_check | apply K].
Qed.

Lemma three_signals_independent_witness :
  @LowerLaws Unicode_ascii /\
  exists text,
    @check_standards_compliance Unicode_ascii text = 1%Z /\
    @check_third_party_assurance Unicode_ascii text = 0%Z /\
    @check_quantitative_metrics Unicode_ascii text = 1%Z.
Proof.
  split; [exact Unicode_ascii_lower|].
  apply (@three_signals_independent Unicode_ascii Unicode_ascii_lower 1 0 1);
    auto.
Defined.

(** X13.  The PDF analyzer and the panel analyzer give every text the
    same assurance and metrics scores.  Their standards scores differ in
    one way only: the panel analyzer also knows "上市公司社会责任指引", so
    its score is 1 exactly when the PDF analyzer's is 1 or that keyword
    occurs, and it is never the lower of the two. *)
Theorem analyzers_compared `{Unicode} (text : str) :
  Quality.check_third_party_assurance text = check_third_party_assurance text /\
  Quality.check_quantitative_metrics text = check_quantitative_metrics text /\
  (Quality.check_standards_compliance text <= check_standards_compliance text)%Z /\
  (check_standards_compliance text = 1%Z <->
   Quality.check_standards_compliance text = 1%Z \/
   substring_of (str_lower (u "上市公司社会责任指引")) (str_lower text)) /\
  (LowerLaws ->
   check_standards_compliance (u "依据上市公司社会责任指引编制") = 1%Z /\
   Quality.check_standards_compliance (u "依据上市公司社会责任指引编制") = 0%Z).
Proof.
  split; [reflexivity|]. split; [reflexivity|].
  assert (S : check_standards_compliance text =
              if (Quality.check_standards_compliance text =? 1)%Z then 1%Z
              else any_keyword [u "上市公司社会责任指引"] (str_lower text)).
  { unfold check_standards_compliance, Quality.check_standards_compliance.
    cbv zeta. rewrite standards_keywords_split. apply any_keyword_app. }
  pose proof (any_keyword_range Quality.standards_keywords (str_lower text)) as Q.
  fold (Quality.check_standards_compliance text) in Q.
  pose proof (any_keyword_range [u "上市公司社会责任指引"] (str_lower text)) as X.
  assert (S' : (Quality.check_standards_compliance text = 0%Z /\
                check_standards_compliance text
                = any_keyword [u "上市公司社会责任指引"] (str_lower text)) \/
               (Quality.check_standards_compliance text = 1%Z /\
                check_standards_compliance text = 1%Z)).
  { destruct Q as [Q | Q]; rewrite Q in S; [left | right]; split; assumption. }
  clear S Q. split; [|split].
  - destruct S' as [[-> ->] | [-> ->]]; lia.
  - destruct S' as [[Q ->] | [Q ->]]; rewrite Q.
    + rewrite any_keyword_one. split.
      * intros (k & Hk & O). apply list_elem_of_singleton in Hk as ->. now right.
      * intros [? | O]; [discriminate|]. eexists. split; [left | exact O].
    + split; auto.
  - intros L. split.
    + rewrite check_standards_compliance_ascii by (vm_compute; reflexivity).
      vm_compute. reflexivity.
    + rewrite quality_standards_ascii by (vm_compute; reflexivity).
      vm_compute. reflexivity.
Qed.

Lemma analyzers_compared_witness :
  @check_standards_compliance Unicode_ascii (u "依据上市公司社会责任指引编制") = 1%Z /\
  @Quality.check_standards_compliance Unicode_ascii
    (u "依据上市公司社会责任指引编制") = 0%Z.
Proof.
  apply (proj2 (proj2 (proj2 (proj2
           (@analyzers_compared Unicode_ascii (u "GRI")))))).
  exact Unicode_ascii_lower.
Defined.

(** X14.  [extract_text_from_pdf] gives all of the text or none of it:
    when every page is read it returns the page texts joined in order, and
    when the file cannot be opened or any page fails it returns the empty
    string, dropping the pages already read. *)
Theorem pdf_text_all_or_nothing (d : Quality.pdf_disk) (pdf_path : str) :
  (forall texts, d pdf_path = Some (map Some texts) ->
     Quality.extract_text_from_pdf d pdf_path = concat texts) /\
  (forall pages, d pdf_path = Some pages -> None ∈ pages ->
     Quality.extract_text_from_pdf d pdf_path = []) /\
  (d pdf_path = None -> Quality.extract_text_from_pdf d pdf_path = []) /\
  (Quality.extract_text_from_pdf d pdf_path <> [] ->
   exists texts, d pdf_path = Some (map Some texts) /\
     Quality.extract_text_from_pdf d pdf_path = concat texts).
Proof.
  unfold Quality.extract_text_from_pdf. repeat split.
  - intros texts ->. now rewrite read_pages_all.
  - intros pages -> I. apply (read_pages_failure pages []) in I. now rewrite I.
  - now intros ->.
  - destruct (d pdf_path) as [pages|]; [|congruence].
    destruct (Quality.read_pages [] pages) as [r|] eqn:E; [|congruence].
    intros _. apply read_pages_some in E as (texts & -> & ->). now exists texts.
Qed.

Lemma pdf_text_all_or_nothing_witness :
  Quality.extract_text_from_pdf
    (fun _ => Some [Some (u "GRI "); Some (u "report")]) (u "a.pdf")
  = u "GRI report" /\
  Quality.extract_text_from_pdf
    (fun _ => Some [Some (u "GRI "); None; Some (u "report")]) (u "a.pdf")
  = [].
Proof.
  split.
  - apply (proj1 (pdf_text_all_or_nothing
                    (fun _ => Some [Some (u "GRI "); Some (u "report")]) (u "a.pdf"))
             [u "GRI "; u "report"]).
    reflexivity.
  - apply (proj1 (proj2 (pdf_text_all_or_nothing
                    (fun _ => Some [Some (u "GRI "); None; Some (u "report")])
                    (u "a.pdf")))
             [Some (u "GRI "); None; Some (u "report")]).
    + reflexivity.
    + right. left.
Defined.

(** X15.  The PDF analyzer returns [None] exactly when no text comes out
    of the file, be it unreadable or readable with nothing on its pages;
    otherwise it returns its three checks and their sum, which lies
    between 0 and 3, under the four keys [standards_compliance],
    [third_party_assurance], [quantitative_metrics] and [total_score]. *)
Theorem pdf_report_absent_or_scored `{Unicode} (d : Quality.pdf_disk)
    (pdf_path : str) :
  (Quality.analyze_report d pdf_path = None <->
   Quality.extract_text_from_pdf d pdf_path = []) /\
  (forall texts, d pdf_path = Some (map Some texts) -> concat texts = [] ->
     Quality.analyze_report d pdf_path = None) /\
  (forall scores, Quality.analyze_report d pdf_path = Some scores ->
     exists s a m,
       scores = {[ "standards_compliance" := s; "third_party_assurance" := a;
                   "quantitative_metrics" := m; "total_score" := (s + a + m)%Z ]} /\
       s = Quality.check_standards_compliance
             (Quality.extract_text_from_pdf d pdf_path) /\
       a = Quality.check_third_party_assurance
             (Quality.extract_text_from_pdf d pdf_path) /\
       m = Quality.check_quantitative_metrics
             (Quality.extract_text_from_pdf d pdf_path) /\
       (0 <= s + a + m <= 3)%Z /\
       dom scores = {[ "standards_compliance"; "third_party_assurance";
                       "quantitative_metrics"; "total_score" ]}).
Proof.
  unfold Quality.analyze_report. split; [|split].
  - destruct (Quality.extract_text_from_pdf d pdf_path); split; congruence.
  - intros texts E C.
    unfold Quality.extract_text_from_pdf. rewrite E, read_pages_all, C.
    reflexivity.
  - intros scores E.
    destruct (Quality.extract_text_from_pdf d pdf_path) as [|c text]; [discriminate|].
    injection E as <-.
    pose proof (any_keyword_range Quality.standards_keywords (str_lower (c :: text))) as S.
    pose proof (any_keyword_range Quality.assurance_keywords (str_lower (c :: text))) as A.
    pose proof (check_quantitative_metrics_range (c :: text)) as M.
    fold (Quality.check_standards_compliance (c :: text)) in S.
    fold (Quality.check_third_party_assurance (c :: text)) in A.
    change (check_quantitative_metrics (c :: text))
      with (Quality.check_quantitative_metrics (c :: text)) in M.
    eexists _, _, _. repeat split; try lia.
Qed.

Lemma pdf_report_absent_or_scored_witness :
  @Quality.analyze_report Unicode_ascii
    (fun _ => Some [Some []; Some []]) (u "scan.pdf") = None.
Proof.
  apply (proj1 (proj2 (@pdf_report_absent_or_scored Unicode_ascii
                         (fun _ => Some [Some []; Some []]) (u "scan.pdf")))
           [[]; []]); reflexivity.
Defined.

(** X16.  Every row of the batch is well formed: its stock code is six
    digits, its name is present, its year lies from 2015 to 2023, each of
    its three scores is 0 or 1, and its total is their sum, hence from 0
    to 3. *)
Theorem rows_are_well_formed `{Unicode} (d : disk) (txt_files : list str)
    (row : result_row) :
  row ∈ results (main_loop d txt_files) ->
  (exists code, stock_code row = Some code /\ digits 6 code) /\
  (exists name, company_name row = Some name) /\
  (exists y, year row = Some y /\ (2015 <= y <= 2023)%Z) /\
  (standards_score row = 0 \/ standards_score row = 1)%Z /\
  (assurance_score row = 0 \/ assurance_score row = 1)%Z /\
  (metrics_score row = 0 \/ metrics_score row = 1)%Z /\
  total_score row
  = (standards_score row + assurance_score row + metrics_score row)%Z /\
  (0 <= total_score row <= 3)%Z.
Proof.
  rewrite main_loop_records. cbn [results]. rewrite elem_of_rows.
  intros (f & Hf & E).
  destruct (parse_filename_cases f)
    as [P | (code & yr & name & tail & y & P & _ & Dc & _)];
    rewrite (record_of_parsed d f _ _ _ P) in E; [discriminate|].
  destruct (year_in_range (Some y)) eqn:R; [|discriminate].
  apply year_in_range_spec in R.
  destruct (extract_text_from_txt d f) as [|c text]; [discriminate|].
  injection E as <-. cbn [stock_code company_name year standards_score
                          assurance_score metrics_score total_score].
  pose proof (any_keyword_range standards_keywords (str_lower (c :: text))) as S.
  pose proof (any_keyword_range assurance_keywords (str_lower (c :: text))) as A.
  pose proof (check_quantitative_metrics_range (c :: text)) as M.
  fold (check_standards_compliance (c :: text)) in S.
  fold (check_third_party_assurance (c :: text)) in A.
  repeat split; eauto; lia.
Qed.

Lemma rows_are_well_formed_witness :
  let d : disk := fun _ => Some (u "KPI") in
  let row := ResultRow (Some (u "600000")) (Some (u "A")) (Some 2020%Z) 0 0 1 1 in
  row ∈ results (@main_loop Unicode_ascii d [u "600000-2020-A.txt"]) /\
  (0 <= total_score row <= 3)%Z.
Proof.
  intros d row.
  assert (I : row ∈ results (@main_loop Unicode_ascii d [u "600000-2020-A.txt"]))
    by (vm_compute; left).
  split; [exact I|].
  apply (@rows_are_well_formed Unicode_ascii d [u "600000-2020-A.txt"] row I).
Defined.
